(** * Simple Notes backend: a shallow embedding of [src/api/main.py]

    The service keeps notes in one Python [dict] ([NOTES_STORE]) and exposes
    six HTTP operations over it.  The development below embeds

    - Python strings as lists of Unicode code points, with [str.strip];
    - the request bodies as parsed JSON values;
    - the pydantic schemas [NoteBase]/[NoteCreate]/[NoteUpdate]/[Note] with
      their field validators;
    - the store as an insertion-ordered dictionary;
    - the handlers in state-passing style, and the routing layer that turns
      their results into status codes.

    Definitions come first, theorems afterwards. *)

From Stdlib Require Import List NArith ZArith Bool Lia String Ascii.
Import ListNotations.

(* ================================================================== *)
(** ** Python strings *)

Module PyStr.

(** A Python [str] is a sequence of code points. *)
Definition str := list N.

Definition of_string (s : string) : str :=
  List.map N_of_ascii (list_ascii_of_string s).

Fixpoint eqb (a b : str) : bool :=
  match a, b with
  | [], [] => true
  | x :: a', y :: b' => N.eqb x y && eqb a' b'
  | _, _ => false
  end.

(** [str.isspace] on one code point: the table of
    [_PyUnicode_IsWhitespace]. *)
Definition isspace (c : N) : bool :=
  ((9 <=? c) && (c <=? 13)
   || (28 <=? c) && (c <=? 32)
   || (c =? 133) || (c =? 160) || (c =? 5760)
   || (8192 <=? c) && (c <=? 8202)
   || (c =? 8232) || (c =? 8233) || (c =? 8239) || (c =? 8287)
   || (c =? 12288))%N.

(** [s.lstrip()]: drop the leading run of whitespace. *)
Fixpoint lstrip (s : str) : str :=
  match s with
  | [] => []
  | c :: r => if isspace c then lstrip r else s
  end.

(** [s.rstrip()]: drop the trailing run of whitespace. *)
Definition rstrip (s : str) : str := rev (lstrip (rev s)).

(** [s.strip()]. *)
Definition strip (s : str) : str := rstrip (lstrip s).

(** The leading and trailing runs that [strip] removes. *)
Fixpoint leading (s : str) : str :=
  match s with
  | [] => []
  | c :: r => if isspace c then c :: leading r else []
  end.

Definition trailing (s : str) : str := rev (leading (rev (lstrip s))).

(** A string is trimmed when neither end is a whitespace character. *)
Definition starts_space (s : str) : bool :=
  match s with
  | [] => false
  | c :: _ => isspace c
  end.

Definition trimmed (s : str) : bool :=
  negb (starts_space s) && negb (starts_space (rev s)).

Definition nonempty (s : str) : bool :=
  match s with
  | [] => false
  | _ :: _ => true
  end.

(** [s.encode("utf-8")] succeeds unless [s] holds a surrogate code point
    (U+D800 to U+DFFF), which a JSON [\ud800] escape on its own puts into
    a [str]. *)
Definition is_surrogate (c : N) : bool := ((55296 <=? c) && (c <=? 57343))%N.

Definition encodable (s : str) : bool :=
  forallb (fun c => negb (is_surrogate c)) s.

End PyStr.

Import PyStr.

(* ================================================================== *)
(** ** UUIDs *)

Module Uuid.

(** A [uuid.UUID] is identified by its 128-bit integer value. *)
Definition UUID := N.

Definition eqb (a b : UUID) : bool := N.eqb a b.

Definition hexval (c : N) : option N :=
  if ((48 <=? c) && (c <=? 57))%N then Some (c - 48)%N
  else if ((97 <=? c) && (c <=? 102))%N then Some (c - 87)%N
  else if ((65 <=? c) && (c <=? 70))%N then Some (c - 55)%N
  else None.

Fixpoint parse_hex (acc : N) (s : str) : option N :=
  match s with
  | [] => Some acc
  | c :: r =>
      match hexval c with
      | Some d => parse_hex (16 * acc + d)%N r
      | None => None
      end
  end.

(** Reads groups of the given lengths separated by ['-'] and returns the
    digits without the separators. *)
Fixpoint take_groups (lens : list nat) (s : str) : option str :=
  match lens with
  | [] => None
  | [n] => if Nat.eqb (List.length s) n then Some s else None
  | n :: lens' =>
      match skipn n s with
      | 45%N :: r =>
          match take_groups lens' r with
          | Some ds => Some (firstn n s ++ ds)
          | None => None
          end
      | _ => None
      end
  end.

Definition parse_simple (s : str) : option UUID := parse_hex 0%N s.

Definition parse_hyphenated (s : str) : option UUID :=
  match take_groups [8; 4; 4; 4; 12]%nat s with
  | Some ds => parse_hex 0%N ds
  | None => None
  end.

Definition urn_prefix : str := of_string "urn:uuid:".

(** [str(u)], the form in which a response carries an id: 32 lower-case hex
    digits in groups of 8-4-4-4-12. *)
Definition hexchar (d : N) : N :=
  if (d <? 10)%N then (48 + d)%N else (87 + d)%N.

Fixpoint hex_digits (k : nat) (n : N) : str :=
  match k with
  | O => []
  | S k' => hex_digits k' (n / 16)%N ++ [hexchar (n mod 16)%N]
  end.

Definition hyphenate (h : str) : str :=
  firstn 8 h ++ 45%N :: firstn 4 (skipn 8 h) ++ 45%N
    :: firstn 4 (skipn 12 h) ++ 45%N :: firstn 4 (skipn 16 h) ++ 45%N
    :: skipn 20 h.

Definition uuid_str (u : UUID) : str := hyphenate (hex_digits 32 u).

(** The conversion the framework applies to a path parameter declared
    [note_id: UUID]: 32 hex digits, the hyphenated 8-4-4-4-12 form, the same
    in braces, or the same after [urn:uuid:]; anything else is refused.
    Hex digits are read in either case; a character outside ASCII is never
    a digit, so such a string is refused whatever its length. *)
Definition parse_uuid (s : str) : option UUID :=
  let n := List.length s in
  if Nat.eqb n 32 then parse_simple s
  else if Nat.eqb n 36 then parse_hyphenated s
  else if Nat.eqb n 38 then
    match s with
    | 123%N :: r =>
        match rev r with
        | 125%N :: m => parse_hyphenated (rev m)
        | _ => None
        end
    | _ => None
    end
  else if Nat.eqb n 45 then
    if PyStr.eqb (firstn 9 s) urn_prefix then parse_hyphenated (skipn 9 s)
    else None
  else None.

End Uuid.

Import Uuid.

(* ================================================================== *)
(** ** JSON request bodies *)

Module Json.

(** A request body after [json.loads]: [JNull] is Python's [None], [JStr]
    a [str], [JObj] a [dict].  Of a number only one thing matters to the
    service, whether it is finite: [json.loads] also yields [nan] and the
    infinities, which a JSON response cannot carry. *)
#[local] Unset Elimination Schemes.
Inductive json : Type :=
| JNull
| JBool (b : bool)
| JNum (finite : bool)
| JStr (s : str)
| JArr (items : list json)
| JObj (members : list (str * json)).
#[local] Set Elimination Schemes.

(** [d.get(k)] on the [dict] parsed from an object literal: when a key is
    repeated, the last member wins. *)
Fixpoint obj_get (k : str) (members : list (str * json)) : option json :=
  match members with
  | [] => None
  | (k', v) :: rest =>
      match obj_get k rest with
      | Some w => Some w
      | None => if PyStr.eqb k k' then Some v else None
      end
  end.

Definition shadowed (k : str) (rest : list (str * json)) : bool :=
  existsb (fun kv => PyStr.eqb k (fst kv)) rest.

(** Whether the loaded value can be written into a JSON response, as
    [json.dumps(..., allow_nan=False).encode("utf-8")] does: every string
    and key it holds is encodable and every number finite.  A member
    shadowed by a later one with the same key is not part of the [dict]. *)
Fixpoint json_encodable (v : json) : bool :=
  match v with
  | JNull | JBool _ => true
  | JNum finite => finite
  | JStr s => encodable s
  | JArr items => forallb json_encodable items
  | JObj members =>
      (fix go (ms : list (str * json)) : bool :=
         match ms with
         | [] => true
         | kv :: rest =>
             (shadowed (fst kv) rest
              || encodable (fst kv) && json_encodable (snd kv))
             && go rest
         end) members
  end.

End Json.

Import Json.

(* ================================================================== *)
(** ** Insertion-ordered dictionaries *)

Module PyDict.

Section Dict.

Variables K V : Type.
Variable keqb : K -> K -> bool.

(** A Python [dict] as the list of its items, oldest insertion first. *)
Definition t := list (K * V).

Definition empty : t := [].

(** [d.get(k)] *)
Fixpoint get (k : K) (d : t) : option V :=
  match d with
  | [] => None
  | (k', v) :: r => if keqb k k' then Some v else get k r
  end.

(** [k in d] *)
Definition contains (k : K) (d : t) : bool :=
  match get k d with
  | Some _ => true
  | None => false
  end.

(** [d[k] = v]: an existing key keeps its position and gets the new value,
    a new key is appended. *)
Fixpoint set (k : K) (v : V) (d : t) : t :=
  match d with
  | [] => [(k, v)]
  | (k', v') :: r =>
      if keqb k k' then (k', v) :: r else (k', v') :: set k v r
  end.

(** [del d[k]] *)
Fixpoint del (k : K) (d : t) : t :=
  match d with
  | [] => []
  | (k', v') :: r => if keqb k k' then r else (k', v') :: del k r
  end.

(** [d.keys()], [d.values()] *)
Definition keys (d : t) : list K := List.map fst d.
Definition values (d : t) : list V := List.map snd d.

(** Keys of a dictionary are pairwise distinct. *)
Definition wf (d : t) : Prop := NoDup (keys d).

End Dict.

Arguments empty {K V}.
Arguments get {K V} keqb k d.
Arguments contains {K V} keqb k d.
Arguments set {K V} keqb k v d.
Arguments del {K V} keqb k d.
Arguments keys {K V} d.
Arguments values {K V} d.
Arguments wf {K V} d.

End PyDict.

(* ================================================================== *)
(** ** Schemas and validation *)

Module Schema.

(** The two declared fields, used as keys of [model_dump] dictionaries and of
    [model_fields_set]. *)
Inductive Field : Type := f_title | f_content.

Definition Field_eqb (a b : Field) : bool :=
  match a, b with
  | f_title, f_title | f_content, f_content => true
  | _, _ => false
  end.

Definition field_name (f : Field) : str :=
  match f with
  | f_title => of_string "title"
  | f_content => of_string "content"
  end.

(** One entry of a validation error report. *)
Inductive error_type : Type :=
| missing
| string_type
| model_attributes_type
| uuid_parsing
| value_error (msg : string).

Definition error_detail : Type := (list str * error_type)%type.
Definition ValidationError : Type := list error_detail.

(** The input an entry of the report quotes back: the whole body where a
    field is missing or the body is not an object, the offending value
    where a field is refused.  A path parameter is URL-decoded text and
    always encodable, so nothing is recorded for it. *)
Definition error_input (body : json) (e : error_detail) : json :=
  match snd e with
  | missing | model_attributes_type => body
  | uuid_parsing => JNull
  | string_type | value_error _ =>
      match fst e, body with
      | [_; k], JObj members =>
          match obj_get k members with
          | Some v => v
          | None => JNull
          end
      | _, _ => JNull
      end
  end.

(** *** [NoteBase] / [NoteCreate] *)

Module NoteCreate.
Record t : Type := mk { title : str; content : str }.
End NoteCreate.

(** The declared type [str]: only a JSON string is accepted. *)
Definition validate_str (v : json) : error_type + str :=
  match v with
  | JStr s => inr s
  | _ => inl string_type
  end.

(** [NoteBase.not_empty] *)
Definition not_empty (v : json) : string + str :=
  match v with
  | JStr s =>
      if PyStr.eqb (strip s) [] then inl "must not be empty"%string
      else inr (strip s)
  | _ => inl "must be a string"%string
  end.

(** A required [str] field with the [not_empty] validator: the type is
    checked first, the validator runs on the typed value. *)
Definition required_field (f : Field) (members : list (str * json))
  : error_type + str :=
  match obj_get (field_name f) members with
  | None => inl missing
  | Some v =>
      match validate_str v with
      | inl e => inl e
      | inr s =>
          match not_empty (JStr s) with
          | inl msg => inl (value_error msg)
          | inr s' => inr s'
          end
      end
  end.

Definition field_errors {A : Type} (f : Field) (r : error_type + A)
  : ValidationError :=
  match r with
  | inl e => [([of_string "body"; field_name f], e)]
  | inr _ => []
  end.

Definition NoteCreate_validate (body : json) : ValidationError + NoteCreate.t :=
  match body with
  | JObj members =>
      let t := required_field f_title members in
      let c := required_field f_content members in
      match t, c with
      | inr t', inr c' => inr (NoteCreate.mk t' c')
      | _, _ => inl (field_errors f_title t ++ field_errors f_content c)
      end
  | _ => inl [([of_string "body"], model_attributes_type)]
  end.

(** *** [NoteUpdate] *)

Module NoteUpdate.
Record t : Type := mk {
  title : option str;
  content : option str;
  (** the fields the request body supplied, whatever their value *)
  model_fields_set : list Field
}.
End NoteUpdate.

(** The declared type [Optional[str]]: [null] or a JSON string. *)
Definition validate_optional_str (v : json) : error_type + option str :=
  match v with
  | JNull => inr None
  | JStr s => inr (Some s)
  | _ => inl string_type
  end.

Definition to_json (v : option str) : json :=
  match v with
  | None => JNull
  | Some s => JStr s
  end.

(** [NoteUpdate.not_empty_when_present] *)
Definition not_empty_when_present (v : json) : string + option str :=
  match v with
  | JNull => inr None
  | JStr s =>
      if PyStr.eqb (strip s) [] then inl "must not be empty"%string
      else inr (Some (strip s))
  | _ => inl "must be a string"%string
  end.

(** An optional field with default [None]: an absent key takes the default
    without validation and stays out of [model_fields_set]; a present key is
    type-checked, validated, and recorded as set. *)
Definition optional_field (f : Field) (members : list (str * json))
  : error_type + (option str * list Field) :=
  match obj_get (field_name f) members with
  | None => inr (None, [])
  | Some v =>
      match validate_optional_str v with
      | inl e => inl e
      | inr o =>
          match not_empty_when_present (to_json o) with
          | inl msg => inl (value_error msg)
          | inr o' => inr (o', [f])
          end
      end
  end.

(** What [optional_field] accepts: an absent key, an explicit [null], or a
    string that is not blank. *)
Inductive optional_case (f : Field) (members : list (str * json))
  : option str -> list Field -> Prop :=
| opt_absent :
    obj_get (field_name f) members = None ->
    optional_case f members None []
| opt_null :
    obj_get (field_name f) members = Some JNull ->
    optional_case f members None [f]
| opt_string (s : str) :
    obj_get (field_name f) members = Some (JStr s) ->
    PyStr.eqb (strip s) [] = false ->
    optional_case f members (Some (strip s)) [f].

Definition NoteUpdate_validate (body : json) : ValidationError + NoteUpdate.t :=
  match body with
  | JObj members =>
      let t := optional_field f_title members in
      let c := optional_field f_content members in
      match t, c with
      | inr (t', ts), inr (c', cs) => inr (NoteUpdate.mk t' c' (ts ++ cs))
      | _, _ => inl (field_errors f_title t ++ field_errors f_content c)
      end
  | _ => inl [([of_string "body"], model_attributes_type)]
  end.

(** [payload.model_dump(exclude_unset=True)]: the fields of
    [model_fields_set], in declaration order, with their values. *)
Definition model_dump_exclude_unset (p : NoteUpdate.t)
  : list (Field * option str) :=
  List.filter
    (fun kv => existsb (Field_eqb (fst kv)) (NoteUpdate.model_fields_set p))
    [(f_title, NoteUpdate.title p); (f_content, NoteUpdate.content p)].

(** *** [Note] *)

(** The fields are declared [str]; [model_copy(update=...)] assigns without
    validating, so an attribute can also hold [None], which is the [None] of
    the option type here. *)
Module Note.
Record t : Type := mk {
  id : UUID;
  title : option str;
  content : option str
}.
End Note.

Definition setattr (n : Note.t) (f : Field) (v : option str) : Note.t :=
  match f with
  | f_title => Note.mk (Note.id n) v (Note.content n)
  | f_content => Note.mk (Note.id n) (Note.title n) v
  end.


(** [existing.model_copy(update=d)] *)
Definition model_copy (n : Note.t) (update : list (Field * option str))
  : Note.t :=
  fold_left (fun acc kv => setattr acc (fst kv) (snd kv)) update n.

(** What the data model asks of a stored field: a string that is non-empty
    and carries no whitespace at either end. *)
Definition field_ok (v : option str) : bool :=
  match v with
  | Some s => nonempty s && trimmed s
  | None => false
  end.

Definition note_ok (n : Note.t) : bool :=
  field_ok (Note.title n) && field_ok (Note.content n).

(** Whether a note can be written into a JSON response: [None] goes out as
    [null], a string must be encodable. *)
Definition field_encodable (v : option str) : bool :=
  match v with
  | Some s => encodable s
  | None => true
  end.

Definition note_encodable (n : Note.t) : bool :=
  field_encodable (Note.title n) && field_encodable (Note.content n).

End Schema.

Import Schema.

(* ================================================================== *)
(** ** Handlers and routing *)

Module Api.

(** [NOTES_STORE: Dict[UUID, Note]] *)
Definition store : Type := PyDict.t UUID Note.t.

Definition NOTES_STORE_initial : store := PyDict.empty.

Inductive HTTPException : Type :=
| mkHTTPException (status_code : nat) (detail : string).

Definition not_found : HTTPException :=
  mkHTTPException 404 "Note not found".

(** [health_check] *)
Definition health_check : string := "Healthy".

(** [list_notes] *)
Definition list_notes (NOTES_STORE : store) : list Note.t :=
  PyDict.values NOTES_STORE.

(** [create_note]; the value drawn by [uuid4()] is the first argument. *)
Definition create_note (uuid4 : UUID) (payload : NoteCreate.t)
    (NOTES_STORE : store) : Note.t * store :=
  let note_id := uuid4 in
  let note :=
    Note.mk note_id (Some (NoteCreate.title payload))
                    (Some (NoteCreate.content payload)) in
  (note, PyDict.set Uuid.eqb note_id note NOTES_STORE).

(** [get_note]; a model instance is always truthy, so [not note] holds
    exactly when [get] returned [None]. *)
Definition get_note (note_id : UUID) (NOTES_STORE : store)
  : HTTPException + Note.t :=
  match PyDict.get Uuid.eqb note_id NOTES_STORE with
  | None => inl not_found
  | Some note => inr note
  end.

(** [update_note] *)
Definition update_note (payload : NoteUpdate.t) (note_id : UUID)
    (NOTES_STORE : store) : (HTTPException + Note.t) * store :=
  match PyDict.get Uuid.eqb note_id NOTES_STORE with
  | None => (inl not_found, NOTES_STORE)
  | Some existing =>
      let updated := model_copy existing (model_dump_exclude_unset payload) in
      (inr updated, PyDict.set Uuid.eqb note_id updated NOTES_STORE)
  end.

(** [delete_note] *)
Definition delete_note (note_id : UUID) (NOTES_STORE : store)
  : (HTTPException + unit) * store :=
  if negb (PyDict.contains Uuid.eqb note_id NOTES_STORE)
  then (inl not_found, NOTES_STORE)
  else (inr tt, PyDict.del Uuid.eqb note_id NOTES_STORE).

(** *** Requests and responses *)

Inductive request : Type :=
| GET_root
| GET_notes
| POST_notes (body : json)
| GET_note (note_id : str)
| PUT_note (note_id : str) (body : json)
| DELETE_note (note_id : str).

Inductive content : Type :=
| c_message (msg : string)
| c_notes (notes : list Note.t)
| c_note (note : Note.t)
| c_detail (detail : string)
| c_errors (errors : ValidationError)
| c_text (text : string)
| c_empty.

Record response : Type := mkResponse { status : nat; body : content }.

Definition raise (e : HTTPException) : response :=
  match e with
  | mkHTTPException code detail => mkResponse code (c_detail detail)
  end.

Definition unprocessable (errors : ValidationError) : response :=
  mkResponse 422 (c_errors errors).

(** What the server answers when building the response raises. *)
Definition internal_server_error : response :=
  mkResponse 500 (c_text "Internal Server Error").

Definition content_encodable (c : content) : bool :=
  match c with
  | c_note n => note_encodable n
  | c_notes notes => forallb note_encodable notes
  | _ => true
  end.

(** The answer to a handler that returned: the declared status with the
    returned value as JSON, or 500 when that value cannot be encoded.  The
    handler has run by then. *)
Definition respond (code : nat) (c : content) : response :=
  if content_encodable c then mkResponse code c else internal_server_error.

(** The answer to a request whose parameters are refused: 422 with the
    report, or 500 when an input the report quotes cannot be encoded. *)
Definition refuse (body : json) (errors : ValidationError) : response :=
  if forallb (fun e => json_encodable (error_input body e)) errors
  then unprocessable errors
  else internal_server_error.

(** The path parameter [note_id: UUID = Path(...)]. *)
Definition path_note_id (raw : str) : ValidationError + UUID :=
  match parse_uuid raw with
  | Some u => inr u
  | None => inl [([of_string "path"; of_string "note_id"], uuid_parsing)]
  end.

Definition errors_of {A : Type} (r : ValidationError + A) : ValidationError :=
  match r with
  | inl e => e
  | inr _ => []
  end.

(** One request against the store.  Parameters are converted and validated
    first; the handler runs only when all of them are accepted, and its
    result is encoded after it has run.  [uuid4] is the identifier the
    generator yields should the handler ask for one. *)
Definition app (uuid4 : UUID) (req : request) (NOTES_STORE : store)
  : response * store :=
  match req with
  | GET_root => (mkResponse 200 (c_message health_check), NOTES_STORE)
  | GET_notes => (respond 200 (c_notes (list_notes NOTES_STORE)), NOTES_STORE)
  | POST_notes body =>
      match NoteCreate_validate body with
      | inl errors => (refuse body errors, NOTES_STORE)
      | inr payload =>
          let (note, st) := create_note uuid4 payload NOTES_STORE in
          (respond 201 (c_note note), st)
      end
  | GET_note raw =>
      match path_note_id raw with
      | inl errors => (unprocessable errors, NOTES_STORE)
      | inr note_id =>
          match get_note note_id NOTES_STORE with
          | inl e => (raise e, NOTES_STORE)
          | inr note => (respond 200 (c_note note), NOTES_STORE)
          end
      end
  | PUT_note raw body =>
      match path_note_id raw, NoteUpdate_validate body with
      | inr note_id, inr payload =>
          match update_note payload note_id NOTES_STORE with
          | (inl e, st) => (raise e, st)
          | (inr note, st) => (respond 200 (c_note note), st)
          end
      | p, b => (refuse body (errors_of p ++ errors_of b), NOTES_STORE)
      end
  | DELETE_note raw =>
      match path_note_id raw with
      | inl errors => (unprocessable errors, NOTES_STORE)
      | inr note_id =>
          match delete_note note_id NOTES_STORE with
          | (inl e, st) => (raise e, st)
          | (inr _, st) => (mkResponse 204 c_empty, st)
          end
      end
  end.

(** A run: requests served one after the other, each with the identifier the
    generator would yield for it. *)
Fixpoint run (reqs : list (UUID * request)) (st : store) : store :=
  match reqs with
  | [] => st
  | (u, req) :: rest => run rest (snd (app u req st))
  end.

(** The states the service can be in. *)
Inductive reachable : store -> Prop :=
| reachable_initial : reachable NOTES_STORE_initial
| reachable_step (st : store) (uuid4 : UUID) (req : request) :
    reachable st -> reachable (snd (app uuid4 req st)).

(** Every entry is filed under the identifier of its note. *)
Definition keyed (st : store) : Prop :=
  Forall (fun kv => Note.id (snd kv) = fst kv) st.

(** The data-model invariant of the store. *)
Definition store_inv (st : store) : Prop :=
  Forall (fun n => note_ok n = true) (list_notes st).

(** The value a request body supplies for a field, if any. *)
Definition supplied (f : Field) (body : json) : option json :=
  match body with
  | JObj members => obj_get (field_name f) members
  | _ => None
  end.

Definition is_null (v : option json) : bool :=
  match v with
  | Some JNull => true
  | _ => false
  end.

(** An update request that carries an explicit [null] for one of the two
    fields. *)
Definition has_null (req : request) : bool :=
  match req with
  | PUT_note _ body =>
      is_null (supplied f_title body) || is_null (supplied f_content body)
  | _ => false
  end.

(** The dictionary states of the service: distinct keys, each entry filed
    under its note's identifier. *)
Definition store_ok (st : store) : Prop := PyDict.wf st /\ keyed st.

(** The note a [POST /notes] with this body returns when [uuid4()] yields
    [u]; [None] when the body is refused. *)
Definition created (u : UUID) (body : json) : option Note.t :=
  match NoteCreate_validate body with
  | inl _ => None
  | inr payload => Some (fst (create_note u payload NOTES_STORE_initial))
  end.

Definition posts (items : list (UUID * json)) : list (UUID * request) :=
  List.map (fun ub => (fst ub, POST_notes (snd ub))) items.

(** States reached by requests none of which carries an explicit [null]. *)
Inductive reachable_no_null : store -> Prop :=
| no_null_initial : reachable_no_null NOTES_STORE_initial
| no_null_step (st : store) (uuid4 : UUID) (req : request) :
    reachable_no_null st -> has_null req = false ->
    reachable_no_null (snd (app uuid4 req st)).

End Api.

Import Api.

(* ================================================================== *)
(** ** Classes of requests and shapes of stored fields *)

Module Shape.

(** The three [GET] routes. *)
Definition is_get (req : request) : bool :=
  match req with
  | GET_root | GET_notes | GET_note _ => true
  | _ => false
  end.

Definition is_post (req : request) : bool :=
  match req with
  | POST_notes _ => true
  | _ => false
  end.

Definition is_delete (req : request) : bool :=
  match req with
  | DELETE_note _ => true
  | _ => false
  end.

(** A field as the handlers can leave it: [None], or a string that is
    non-empty and trimmed. *)
Definition field_shape (v : option str) : bool :=
  match v with
  | None => true
  | Some s => nonempty s && trimmed s
  end.

Definition note_shape (n : Note.t) : bool :=
  field_shape (Note.title n) && field_shape (Note.content n).

(** A string with at least one character that is not whitespace. *)
Definition has_text (s : str) : bool := existsb (fun c => negb (isspace c)) s.

End Shape.

Import Shape.

(* ================================================================== *)
(** ** Sample requests and stores *)

Module Scenario.

Definition id1 : UUID := 83967474462235061918869202488930556523%N.
Definition id1_raw : str := of_string "3f2b8c1e-9d4a-4e7b-8a6f-1c2d3e4f5a6b".

Definition id2 : UUID := 13433369256225103277757620117453876285%N.
Definition id2_raw : str := of_string "0a1b2c3d-4e5f-4a6b-9c7d-8e9f0a1b2c3d".

Definition id3 : UUID := 324969006592305634633390616021200786553%N.
Definition id3_raw : str := of_string "f47ac10b-58cc-4372-a567-0e02b2c3d479".

Definition k_title : str := of_string "title".
Definition k_content : str := of_string "content".

Definition text (s : string) : json := JStr (of_string s).

(** [{"title": "A", "content": "B"}] and friends. *)
Definition body_AB : json := JObj [(k_title, text "A"); (k_content, text "B")].
Definition body_CD : json := JObj [(k_title, text "C"); (k_content, text "D")].
Definition body_padded : json :=
  JObj [(k_title, text "  A note "); (k_content, text " B ")].

(** Update bodies: a new title only, a new content only, a blank title, an
    explicit [null] title. *)
Definition body_title_only : json := JObj [(k_title, text " New ")].
Definition body_content_only : json := JObj [(k_content, text "Text")].
Definition body_null_title : json := JObj [(k_title, JNull)].

Definition body_number_title : json :=
  JObj [(k_title, JNum true); (k_content, text "B")].

(** Bodies with a lone surrogate, as [json.loads] reads ["\ud800"]:
    an accepted create, an accepted create with padding, an accepted update,
    and a create refused for its missing content. *)
Definition lone : str := [55296%N].
Definition body_lone : json := JObj [(k_title, JStr lone); (k_content, text "B")].
Definition body_lone_title : json := JObj [(k_title, JStr lone)].

Definition note_lone : Note.t := Note.mk id1 (Some lone) (Some (of_string "B")).

(** The store after [POST body_lone], the generator yielding [id1]. *)
Definition st_lone : store := [(id1, note_lone)].

Definition note_AB : Note.t :=
  Note.mk id1 (Some (of_string "A")) (Some (of_string "B")).
Definition note_CD : Note.t :=
  Note.mk id2 (Some (of_string "C")) (Some (of_string "D")).

(** The store after one, and after two, creations. *)
Definition st_AB : store := [(id1, note_AB)].
Definition st_AB_CD : store := [(id1, note_AB); (id2, note_CD)].

(** The store after [POST body_AB] (the generator yielding [id1]) followed
    by [PUT /notes/id1] with [{"title": null}]. *)
Definition null_run : list (UUID * request) :=
  [(id1, POST_notes body_AB); (id2, PUT_note id1_raw body_null_title)].
Definition st_null : store := run null_run NOTES_STORE_initial.

End Scenario.

(* ================================================================== *)
(** * Facts about strings *)

Section StrFacts.

Lemma eqb_spec (a b : str) : reflect (a = b) (PyStr.eqb a b).
Proof.
  revert b; induction a as [|x a IH]; intros [|y b]; simpl;
    try (constructor; congruence).
  destruct (N.eqb_spec x y) as [->|Hne]; simpl.
  - destruct (IH b) as [->|Hne]; constructor; congruence.
  - constructor; congruence.
Qed.

Lemma eqb_refl (a : str) : PyStr.eqb a a = true.
Proof. destruct (eqb_spec a a); congruence. Qed.

Lemma eqb_nil_r (a : str) : PyStr.eqb a [] = negb (nonempty a).
Proof. destruct a; reflexivity. Qed.

Lemma leading_lstrip (s : str) : s = leading s ++ lstrip s.
Proof.
  induction s as [|c r IH]; simpl; [reflexivity|].
  destruct (isspace c); simpl; [f_equal; exact IH | reflexivity].
Qed.

Lemma leading_all_space (s : str) : forallb isspace (leading s) = true.
Proof.
  induction s as [|c r IH]; simpl; [reflexivity|].
  destruct (isspace c) eqn:E; simpl; [rewrite E; exact IH | reflexivity].
Qed.

Lemma lstrip_starts (s : str) : starts_space (lstrip s) = false.
Proof.
  induction s as [|c r IH]; simpl; [reflexivity|].
  destruct (isspace c) eqn:E; simpl; [exact IH | exact E].
Qed.

Lemma lstrip_fixed (s : str) : starts_space s = false -> lstrip s = s.
Proof. destruct s as [|c r]; simpl; [reflexivity|]. intros ->; reflexivity. Qed.

Lemma forallb_rev (A : Type) (p : A -> bool) (l : list A) :
  forallb p (rev l) = forallb p l.
Proof.
  induction l as [|x l IH]; simpl; [reflexivity|].
  rewrite forallb_app, IH; simpl. rewrite andb_true_r, andb_comm. reflexivity.
Qed.

(** [strip] cuts a whitespace prefix and a whitespace suffix off [s]. *)
Lemma strip_decompose (s : str) :
  s = leading s ++ strip s ++ trailing s.
Proof.
  unfold strip, rstrip, trailing.
  rewrite <- rev_app_distr, <- leading_lstrip, rev_involutive.
  apply leading_lstrip.
Qed.

Lemma trailing_all_space (s : str) : forallb isspace (trailing s) = true.
Proof. unfold trailing. rewrite forallb_rev. apply leading_all_space. Qed.

(** The first character of a non-empty [lstrip]ped suffix of [rev s] is the
    last character of [s]; stripping the right end keeps the left end. *)
Lemma starts_space_app (a b : str) :
  nonempty a = true -> starts_space (a ++ b) = starts_space a.
Proof. destruct a; simpl; [discriminate | reflexivity]. Qed.

Lemma strip_starts (s : str) : starts_space (strip s) = false.
Proof.
  unfold strip, rstrip.
  pose proof (lstrip_starts s) as H.
  set (t := lstrip s) in *.
  destruct (rev (lstrip (rev t))) as [|c r] eqn:E; [reflexivity|].
  pose proof (leading_lstrip (rev t)) as D.
  apply (f_equal (@rev N)) in D. rewrite rev_involutive, rev_app_distr, E in D.
  rewrite D in H. simpl in H. simpl. exact H.
Qed.

Lemma strip_ends (s : str) : starts_space (rev (strip s)) = false.
Proof. unfold strip, rstrip. rewrite rev_involutive. apply lstrip_starts. Qed.

Lemma strip_trimmed (s : str) : trimmed (strip s) = true.
Proof. unfold trimmed. rewrite strip_starts, strip_ends. reflexivity. Qed.

Lemma strip_fixed (s : str) : trimmed s = true -> strip s = s.
Proof.
  unfold trimmed, strip, rstrip. intros H.
  apply andb_true_iff in H as [H1 H2].
  apply negb_true_iff in H1, H2.
  rewrite (lstrip_fixed _ H1), (lstrip_fixed _ H2). apply rev_involutive.
Qed.

Lemma strip_idempotent (s : str) : strip (strip s) = strip s.
Proof. apply strip_fixed, strip_trimmed. Qed.

Example strip_example :
  strip (of_string "  A note ") = of_string "A note".
Proof. reflexivity. Qed.

Example strip_blank : strip (of_string "  ") = [].
Proof. reflexivity. Qed.

Example strip_no_break_space : strip [160; 65; 8195]%N = [65]%N.
Proof. reflexivity. Qed.

End StrFacts.

(* ================================================================== *)
(** * Facts about identifiers *)

Section UuidFacts.








Example uuid_str_id1 : uuid_str Scenario.id1 = Scenario.id1_raw.
Proof. reflexivity. Qed.

Example parse_simple_form :
  parse_uuid (of_string "3f2b8c1e9d4a4e7b8a6f1c2d3e4f5a6b") = Some Scenario.id1.
Proof. reflexivity. Qed.

Example parse_braced_form :
  parse_uuid (of_string "{3F2B8C1E-9D4A-4E7B-8A6F-1C2D3E4F5A6B}")
  = Some Scenario.id1.
Proof. reflexivity. Qed.

Example parse_urn_form :
  parse_uuid (of_string "urn:uuid:3f2b8c1e-9d4a-4e7b-8a6f-1c2d3e4f5a6b")
  = Some Scenario.id1.
Proof. reflexivity. Qed.

Example parse_misplaced_hyphen :
  parse_uuid (of_string "3f2b8c1-e9d4a-4e7b-8a6f-1c2d3e4f5a6b") = None.
Proof. reflexivity. Qed.

End UuidFacts.

(* ================================================================== *)
(** * Facts about dictionaries *)

Section DictFacts.

Variables K V : Type.
Variable keqb : K -> K -> bool.
Hypothesis keqb_spec : forall a b, reflect (a = b) (keqb a b).

#[local] Abbreviation dict := (PyDict.t K V).
#[local] Abbreviation get := (PyDict.get keqb).
#[local] Abbreviation set := (PyDict.set keqb).
#[local] Abbreviation del := (PyDict.del keqb).
#[local] Abbreviation contains := (PyDict.contains keqb).

Lemma get_none_keys (k : K) (d : dict) :
  get k d = None <-> ~ In k (PyDict.keys d).
Proof.
  induction d as [|[k' v'] r IH]; simpl.
  - tauto.
  - destruct (keqb_spec k k') as [->|Hne].
    + split; [discriminate | intros H; exfalso; apply H; now left].
    + rewrite IH. split.
      * intros H [E|E]; [congruence | tauto].
      * intros H E; apply H; now right.
Qed.

Lemma get_some_in (k : K) (v : V) (d : dict) :
  get k d = Some v -> In (k, v) d.
Proof.
  induction d as [|[k' v'] r IH]; simpl; [discriminate|].
  destruct (keqb_spec k k') as [->|Hne].
  - intros [= ->]; now left.
  - intros H; right; auto.
Qed.

Lemma in_get_some (k : K) (v : V) (d : dict) :
  PyDict.wf d -> In (k, v) d -> get k d = Some v.
Proof.
  unfold PyDict.wf.
  induction d as [|[k' v'] r IH]; simpl; [tauto|].
  intros Hwf [E|Hin]; inversion Hwf as [|? ? Hnotin Hwf']; subst.
  - inversion E; subst. destruct (keqb_spec k k); congruence.
  - destruct (keqb_spec k k') as [->|Hne]; [|auto].
    exfalso; apply Hnotin.
    change k' with (fst (k', v)). now apply in_map.
Qed.

Lemma contains_get (k : K) (d : dict) :
  contains k d = true <-> exists v, get k d = Some v.
Proof.
  unfold PyDict.contains. destruct (get k d) as [v|].
  - split; [eauto | reflexivity].
  - split; [discriminate | intros [v H]; discriminate].
Qed.

Lemma contains_false_get (k : K) (d : dict) :
  contains k d = false <-> get k d = None.
Proof.
  unfold PyDict.contains. destruct (get k d); split; congruence.
Qed.

Lemma get_set_same (k : K) (v : V) (d : dict) : get k (set k v d) = Some v.
Proof.
  induction d as [|[k' v'] r IH]; simpl.
  - destruct (keqb_spec k k); congruence.
  - destruct (keqb_spec k k') as [->|Hne]; simpl.
    + destruct (keqb_spec k' k'); congruence.
    + destruct (keqb_spec k k'); congruence.
Qed.

Lemma get_set_other (k k0 : K) (v : V) (d : dict) :
  k0 <> k -> get k0 (set k v d) = get k0 d.
Proof.
  intros Hne. induction d as [|[k' v'] r IH]; simpl.
  - destruct (keqb_spec k0 k); congruence.
  - destruct (keqb_spec k k') as [->|Hne']; simpl.
    + destruct (keqb_spec k0 k'); congruence.
    + destruct (keqb_spec k0 k'); congruence.
Qed.

(** Assigning to a key that is absent appends the item. *)
Lemma set_fresh (k : K) (v : V) (d : dict) :
  get k d = None -> set k v d = d ++ [(k, v)].
Proof.
  induction d as [|[k' v'] r IH]; simpl; [reflexivity|].
  destruct (keqb_spec k k'); [discriminate|].
  intros H; f_equal; auto.
Qed.

(** Assigning to a key that is present keeps every key where it was. *)
Lemma keys_set_present (k : K) (v v0 : V) (d : dict) :
  get k d = Some v0 -> PyDict.keys (set k v d) = PyDict.keys d.
Proof.
  induction d as [|[k' v'] r IH]; simpl; [discriminate|].
  destruct (keqb_spec k k'); simpl; [reflexivity|].
  intros H; f_equal; auto.
Qed.

Lemma length_set_present (k : K) (v v0 : V) (d : dict) :
  get k d = Some v0 -> List.length (set k v d) = List.length d.
Proof.
  intros H. apply (keys_set_present _ v) in H.
  apply (f_equal (@List.length K)) in H.
  unfold PyDict.keys in H. now rewrite !length_map in H.
Qed.

Lemma length_set_fresh (k : K) (v : V) (d : dict) :
  get k d = None -> List.length (set k v d) = Datatypes.S (List.length d).
Proof.
  intros H. rewrite (set_fresh _ _ _ H), length_app. simpl. lia.
Qed.

Lemma wf_set (k : K) (v : V) (d : dict) :
  PyDict.wf d -> PyDict.wf (set k v d).
Proof.
  intros Hwf. destruct (get k d) as [v0|] eqn:E.
  - unfold PyDict.wf. now rewrite (keys_set_present _ v _ _ E).
  - rewrite (set_fresh _ _ _ E). unfold PyDict.wf, PyDict.keys.
    rewrite map_app. simpl.
    apply NoDup_app; repeat split.
    + exact Hwf.
    + constructor; [simpl; tauto | constructor].
    + intros a Ha [<-|[]]. now apply (get_none_keys k d) in E.
Qed.

(** Deleting a key is filtering its item out. *)
Lemma del_filter (k : K) (d : dict) :
  PyDict.wf d ->
  del k d = List.filter (fun kv => negb (keqb k (fst kv))) d.
Proof.
  unfold PyDict.wf.
  induction d as [|[k' v'] r IH]; simpl; [reflexivity|].
  intros Hwf; inversion Hwf as [|? ? Hnotin Hwf']; subst.
  destruct (keqb_spec k k') as [->|Hne]; simpl.
  - symmetry. apply forallb_filter_id. apply forallb_forall.
    intros [k1 v1] Hin. simpl.
    destruct (keqb_spec k' k1) as [->|]; [|reflexivity].
    exfalso; apply Hnotin. change k1 with (fst (k1, v1)). now apply in_map.
  - f_equal; auto.
Qed.

Lemma wf_del (k : K) (d : dict) : PyDict.wf d -> PyDict.wf (del k d).
Proof.
  intros Hwf. rewrite (del_filter k _ Hwf). unfold PyDict.wf, PyDict.keys in *.
  clear keqb_spec.
  induction d as [|[k' v'] r IH]; simpl; [constructor|].
  inversion Hwf as [|? ? Hnotin Hwf']; subst.
  destruct (negb (keqb k k')); simpl; [|auto].
  constructor; [|auto].
  intros Hin; apply Hnotin.
  apply in_map_iff in Hin as [[k1 v1] [E Hin]].
  apply filter_In in Hin as [Hin _].
  apply in_map_iff. exists (k1, v1); auto.
Qed.

Lemma get_del_same (k : K) (d : dict) :
  PyDict.wf d -> get k (del k d) = None.
Proof.
  unfold PyDict.wf.
  induction d as [|[k' v'] r IH]; simpl; [reflexivity|].
  intros Hwf; inversion Hwf as [|? ? Hnotin Hwf']; subst.
  destruct (keqb_spec k k') as [->|Hne]; simpl.
  - now apply get_none_keys.
  - destruct (keqb_spec k k'); [congruence | auto].
Qed.

Lemma get_del_other (k k0 : K) (d : dict) :
  k0 <> k -> get k0 (del k d) = get k0 d.
Proof.
  intros Hne. induction d as [|[k' v'] r IH]; simpl; [reflexivity|].
  destruct (keqb_spec k k') as [->|Hne']; simpl.
  - destruct (keqb_spec k0 k'); congruence.
  - destruct (keqb_spec k0 k'); congruence.
Qed.

Lemma length_del_present (k : K) (v0 : V) (d : dict) :
  get k d = Some v0 -> Datatypes.S (List.length (del k d)) = List.length d.
Proof.
  induction d as [|[k' v'] r IH]; simpl; [discriminate|].
  destruct (keqb_spec k k'); simpl; [reflexivity|].
  intros H; f_equal; auto.
Qed.

Lemma Forall_set (Q : K * V -> Prop) (k : K) (v : V) (d : dict) :
  Forall Q d -> Q (k, v) -> Forall Q (set k v d).
Proof.
  intros Hd Hv. induction d as [|[k' v'] r IH]; simpl.
  - constructor; [exact Hv | constructor].
  - inversion Hd as [|? ? Hq Hr]; subst.
    destruct (keqb_spec k k') as [->|Hne]; constructor; auto.
Qed.

Lemma Forall_del (Q : K * V -> Prop) (k : K) (d : dict) :
  Forall Q d -> Forall Q (del k d).
Proof.
  intros Hd. induction d as [|[k' v'] r IH]; simpl; [constructor|].
  inversion Hd as [|? ? Hq Hr]; subst.
  destruct (keqb k k'); [exact Hr | constructor; auto].
Qed.

Lemma Forall_values (P : V -> Prop) (d : dict) :
  Forall P (PyDict.values d) <-> Forall (fun kv => P (snd kv)) d.
Proof. unfold PyDict.values. apply Forall_map. Qed.

(** A value read from the dictionary satisfies what all its items do. *)
Lemma Forall_get (Q : K * V -> Prop) (k : K) (v : V) (d : dict) :
  Forall Q d -> get k d = Some v -> Q (k, v).
Proof.
  intros Hd Hg. apply get_some_in in Hg.
  rewrite Forall_forall in Hd. auto.
Qed.

End DictFacts.

(* ================================================================== *)
(** * Facts about validation *)

Section ValidationFacts.

Lemma uuid_eqb_spec (a b : UUID) : reflect (a = b) (Uuid.eqb a b).
Proof. apply N.eqb_spec. Qed.

Lemma strip_nonempty (s : str) :
  PyStr.eqb (strip s) [] = false -> nonempty (strip s) = true.
Proof. rewrite eqb_nil_r. apply negb_false_iff. Qed.

(** What [required_field] accepts, and what it returns then. *)
Lemma required_field_inr (f : Field) (members : list (str * json)) (s' : str) :
  required_field f members = inr s' <->
  exists s, obj_get (field_name f) members = Some (JStr s)
            /\ PyStr.eqb (strip s) [] = false /\ s' = strip s.
Proof.
  unfold required_field.
  destruct (obj_get (field_name f) members) as [v|].
  - destruct v; simpl;
      try (split; [discriminate | intros (s0 & H & _); discriminate]).
    destruct (PyStr.eqb (strip s) []) eqn:E.
    + split; [discriminate|]. intros (s0 & [= <-] & H & _). congruence.
    + split.
      * intros [= <-]. eauto.
      * intros (s0 & [= <-] & _ & ->). reflexivity.
  - split; [discriminate | intros (s0 & H & _); discriminate].
Qed.

Lemma required_field_ok (f : Field) (members : list (str * json)) (s' : str) :
  required_field f members = inr s' -> field_ok (Some s') = true.
Proof.
  intros H. apply required_field_inr in H as (s & _ & Hne & ->).
  simpl. rewrite (strip_nonempty _ Hne), strip_trimmed. reflexivity.
Qed.

Lemma NoteCreate_validate_inr (body : json) (p : NoteCreate.t) :
  NoteCreate_validate body = inr p <->
  exists members, body = JObj members
    /\ required_field f_title members = inr (NoteCreate.title p)
    /\ required_field f_content members = inr (NoteCreate.content p).
Proof.
  destruct p as [t c]. unfold NoteCreate_validate. simpl. split.
  - destruct body as [| | | | |members]; try discriminate.
    destruct (required_field f_title members) as [e|t'] eqn:Et,
             (required_field f_content members) as [e'|c'] eqn:Ec;
      try discriminate.
    intros [= <- <-]. exists members. auto.
  - intros (members & -> & -> & ->). reflexivity.
Qed.


Lemma optional_field_inr (f : Field) (members : list (str * json))
    (o : option str) (fs : list Field) :
  optional_field f members = inr (o, fs) <-> optional_case f members o fs.
Proof.
  unfold optional_field. split.
  - destruct (obj_get (field_name f) members) as [v|] eqn:E.
    + destruct v; simpl; try discriminate.
      * intros [= <- <-]. now apply opt_null.
      * destruct (PyStr.eqb (strip s) []) eqn:E'; [discriminate|].
        intros [= <- <-]. now apply opt_string.
    + intros [= <- <-]. now apply opt_absent.
  - intros [H|H|s H Hne]; rewrite H; simpl; [reflexivity..|].
    rewrite Hne. reflexivity.
Qed.

Lemma NoteUpdate_validate_inr (body : json) (p : NoteUpdate.t) :
  NoteUpdate_validate body = inr p <->
  exists members ts cs, body = JObj members
    /\ optional_field f_title members = inr (NoteUpdate.title p, ts)
    /\ optional_field f_content members = inr (NoteUpdate.content p, cs)
    /\ NoteUpdate.model_fields_set p = ts ++ cs.
Proof.
  destruct p as [t c fs]. unfold NoteUpdate_validate. simpl. split.
  - destruct body as [| | | | |members]; try discriminate.
    destruct (optional_field f_title members) as [e|[t' ts]] eqn:Et,
             (optional_field f_content members) as [e'|[c' cs]] eqn:Ec;
      try discriminate.
    intros [= <- <- <-]. exists members, ts, cs. auto.
  - intros (members & ts & cs & -> & -> & -> & ->). reflexivity.
Qed.


(** The merge [update_note] performs, field by field. *)
Lemma model_copy_dump (n : Note.t) (members : list (str * json))
    (t c : option str) (ts cs : list Field) :
  optional_case f_title members t ts ->
  optional_case f_content members c cs ->
  model_copy n (model_dump_exclude_unset (NoteUpdate.mk t c (ts ++ cs)))
  = Note.mk (Note.id n)
      (match ts with [] => Note.title n | _ => t end)
      (match cs with [] => Note.content n | _ => c end).
Proof.
  intros Ht Hc. destruct n as [i nt nc].
  destruct Ht, Hc; reflexivity.
Qed.

Lemma optional_case_absent (f : Field) (members : list (str * json))
    (o : option str) (fs : list Field) (old : option str) :
  optional_case f members o fs ->
  obj_get (field_name f) members = None ->
  match fs with [] => old | _ => o end = old.
Proof. intros [H|H|s H Hne] E; [reflexivity | congruence..]. Qed.

Lemma optional_case_string (f : Field) (members : list (str * json))
    (o : option str) (fs : list Field) (old : option str) (s : str) :
  optional_case f members o fs ->
  obj_get (field_name f) members = Some (JStr s) ->
  match fs with [] => old | _ => o end = Some (strip s)
  /\ PyStr.eqb (strip s) [] = false.
Proof.
  intros [H|H|s0 H Hne] E; try congruence.
  rewrite H in E. injection E as <-. now split.
Qed.

Lemma optional_case_null (f : Field) (members : list (str * json))
    (o : option str) (fs : list Field) (old : option str) :
  optional_case f members o fs ->
  obj_get (field_name f) members = Some JNull ->
  match fs with [] => old | _ => o end = None.
Proof. intros [H|H|s H Hne] E; [congruence | reflexivity | congruence]. Qed.

End ValidationFacts.

(* ================================================================== *)
(** * Facts about the handlers *)

Section ApiFacts.

#[local] Abbreviation sget := (PyDict.get Uuid.eqb).
#[local] Abbreviation sset := (PyDict.set Uuid.eqb).
#[local] Abbreviation sdel := (PyDict.del Uuid.eqb).

Lemma path_note_id_some (raw : str) (note_id : UUID) :
  parse_uuid raw = Some note_id -> path_note_id raw = inr note_id.
Proof. unfold path_note_id. intros ->. reflexivity. Qed.

Lemma path_note_id_none (raw : str) :
  parse_uuid raw = None ->
  path_note_id raw
  = inl [([of_string "path"; of_string "note_id"], uuid_parsing)].
Proof. unfold path_note_id. intros ->. reflexivity. Qed.

(** *** Encoding the answer *)


Lemma respond_not_encodable (code : nat) (c : content) :
  content_encodable c = false -> respond code c = internal_server_error.
Proof. unfold respond. intros ->. reflexivity. Qed.

Lemma respond_status (code : nat) (c : content) :
  status (respond code c) = code \/ status (respond code c) = 500.
Proof. unfold respond. destruct (content_encodable c); auto. Qed.








(** *** The equations of [app], one per outcome *)

Lemma app_post_refused (u : UUID) (body : json) (errors : ValidationError)
    (st : store) :
  NoteCreate_validate body = inl errors ->
  app u (POST_notes body) st = (refuse body errors, st).
Proof. simpl. intros ->. reflexivity. Qed.

Lemma app_post_accepted (u : UUID) (body : json) (p : NoteCreate.t)
    (st : store) :
  NoteCreate_validate body = inr p ->
  let note := Note.mk u (Some (NoteCreate.title p))
                        (Some (NoteCreate.content p)) in
  app u (POST_notes body) st = (respond 201 (c_note note), sset u note st).
Proof. simpl. intros ->. reflexivity. Qed.

Lemma app_get_found (u : UUID) (raw : str) (note_id : UUID) (n : Note.t)
    (st : store) :
  parse_uuid raw = Some note_id -> sget note_id st = Some n ->
  app u (GET_note raw) st = (respond 200 (c_note n), st).
Proof.
  intros Hp Hg. simpl. rewrite (path_note_id_some _ _ Hp).
  unfold get_note. rewrite Hg. reflexivity.
Qed.

Lemma app_get_absent (u : UUID) (raw : str) (note_id : UUID) (st : store) :
  parse_uuid raw = Some note_id -> sget note_id st = None ->
  app u (GET_note raw) st = (raise not_found, st).
Proof.
  intros Hp Hg. simpl. rewrite (path_note_id_some _ _ Hp).
  unfold get_note. rewrite Hg. reflexivity.
Qed.

Lemma app_put_refused (u : UUID) (raw : str) (body : json)
    (errors : ValidationError) (st : store) :
  NoteUpdate_validate body = inl errors ->
  app u (PUT_note raw body) st
  = (refuse body (errors_of (path_note_id raw) ++ errors), st).
Proof.
  simpl. intros ->. destruct (path_note_id raw); reflexivity.
Qed.

Lemma app_put_found (u : UUID) (raw : str) (note_id : UUID) (body : json)
    (p : NoteUpdate.t) (existing : Note.t) (st : store) :
  parse_uuid raw = Some note_id -> NoteUpdate_validate body = inr p ->
  sget note_id st = Some existing ->
  let updated := model_copy existing (model_dump_exclude_unset p) in
  app u (PUT_note raw body) st
  = (respond 200 (c_note updated), sset note_id updated st).
Proof.
  intros Hp Hv Hg. simpl. rewrite (path_note_id_some _ _ Hp), Hv.
  unfold update_note. rewrite Hg. reflexivity.
Qed.

Lemma app_put_absent (u : UUID) (raw : str) (note_id : UUID) (body : json)
    (p : NoteUpdate.t) (st : store) :
  parse_uuid raw = Some note_id -> NoteUpdate_validate body = inr p ->
  sget note_id st = None ->
  app u (PUT_note raw body) st = (raise not_found, st).
Proof.
  intros Hp Hv Hg. simpl. rewrite (path_note_id_some _ _ Hp), Hv.
  unfold update_note. rewrite Hg. reflexivity.
Qed.

Lemma app_delete_found (u : UUID) (raw : str) (note_id : UUID) (n : Note.t)
    (st : store) :
  parse_uuid raw = Some note_id -> sget note_id st = Some n ->
  app u (DELETE_note raw) st = (mkResponse 204 c_empty, sdel note_id st).
Proof.
  intros Hp Hg. simpl. rewrite (path_note_id_some _ _ Hp).
  unfold delete_note, PyDict.contains. rewrite Hg. reflexivity.
Qed.

Lemma app_delete_absent (u : UUID) (raw : str) (note_id : UUID) (st : store) :
  parse_uuid raw = Some note_id -> sget note_id st = None ->
  app u (DELETE_note raw) st = (raise not_found, st).
Proof.
  intros Hp Hg. simpl. rewrite (path_note_id_some _ _ Hp).
  unfold delete_note, PyDict.contains. rewrite Hg. reflexivity.
Qed.

(** A request whose path parameter is refused never reaches a handler. *)
Lemma app_bad_path_store (u : UUID) (req : request) (st : store) :
  match req with
  | GET_note raw | PUT_note raw _ | DELETE_note raw => parse_uuid raw = None
  | _ => False
  end ->
  snd (app u req st) = st.
Proof.
  destruct req as [| | |raw|raw body|raw]; try tauto; intros Hp; simpl;
    rewrite (path_note_id_none _ Hp);
    try destruct (NoteUpdate_validate body); reflexivity.
Qed.

(** *** How one request changes the store *)

Lemma app_store_cases (u : UUID) (req : request) (st : store) :
  snd (app u req st) = st
  \/ (exists body p,
        req = POST_notes body /\ NoteCreate_validate body = inr p
        /\ snd (app u req st)
           = sset u (Note.mk u (Some (NoteCreate.title p))
                               (Some (NoteCreate.content p))) st)
  \/ (exists raw note_id body p existing,
        req = PUT_note raw body /\ parse_uuid raw = Some note_id
        /\ NoteUpdate_validate body = inr p
        /\ sget note_id st = Some existing
        /\ snd (app u req st)
           = sset note_id
               (model_copy existing (model_dump_exclude_unset p)) st)
  \/ (exists raw note_id n,
        req = DELETE_note raw /\ parse_uuid raw = Some note_id
        /\ sget note_id st = Some n
        /\ snd (app u req st) = sdel note_id st).
Proof.
  destruct req as [| |body|raw|raw body|raw].
  - now left.
  - now left.
  - destruct (NoteCreate_validate body) as [errors|p] eqn:Hv.
    + left. now erewrite app_post_refused by eassumption.
    + right; left. exists body, p.
      now erewrite app_post_accepted by eassumption.
  - left. simpl. destruct (path_note_id raw); [reflexivity|].
    destruct (get_note u0 st); reflexivity.
  - destruct (NoteUpdate_validate body) as [errors|p] eqn:Hv.
    { left. now erewrite app_put_refused by eassumption. }
    destruct (parse_uuid raw) as [note_id|] eqn:Hp.
    + destruct (sget note_id st) as [existing|] eqn:Hg.
      * right; right; left. exists raw, note_id, body, p, existing.
        now erewrite app_put_found by eassumption.
      * left. now erewrite app_put_absent by eassumption.
    + left. apply (app_bad_path_store u (PUT_note raw body) st Hp).
  - destruct (parse_uuid raw) as [note_id|] eqn:Hp.
    + destruct (sget note_id st) as [n|] eqn:Hg.
      * right; right; right. exists raw, note_id, n.
        now erewrite app_delete_found by eassumption.
      * left. now erewrite app_delete_absent by eassumption.
    + left. apply (app_bad_path_store u (DELETE_note raw) st Hp).
Qed.

Lemma model_copy_id (n : Note.t) (update : list (Field * option str)) :
  Note.id (model_copy n update) = Note.id n.
Proof.
  unfold model_copy. revert n.
  induction update as [|[f v] r IH]; intros n; simpl; [reflexivity|].
  rewrite IH. destruct f; reflexivity.
Qed.

(** Distinct keys and correct filing survive every request. *)
Lemma app_store_ok (u : UUID) (req : request) (st : store) :
  store_ok st -> store_ok (snd (app u req st)).
Proof.
  intros [Hwf Hk].
  destruct (app_store_cases u req st)
    as [->|[(body & p & _ & _ & ->)
           |[(raw & note_id & body & p & existing & _ & _ & _ & Hg & ->)
            |(raw & note_id & n & _ & _ & _ & ->)]]].
  - now split.
  - split; [now apply wf_set; [apply uuid_eqb_spec|]|].
    apply Forall_set; [apply uuid_eqb_spec | exact Hk | reflexivity].
  - split; [now apply wf_set; [apply uuid_eqb_spec|]|].
    apply Forall_set; [apply uuid_eqb_spec | exact Hk |].
    simpl. rewrite model_copy_id.
    exact (Forall_get _ _ _ uuid_eqb_spec _ _ _ _ Hk Hg).
  - split; [now apply wf_del; [apply uuid_eqb_spec|]|].
    now apply Forall_del.
Qed.

Lemma reachable_store_ok (st : store) : reachable st -> store_ok st.
Proof.
  induction 1 as [|st u req _ IH].
  - split; constructor.
  - now apply app_store_ok.
Qed.

Lemma run_reachable (reqs : list (UUID * request)) (st : store) :
  reachable st -> reachable (run reqs st).
Proof.
  revert st. induction reqs as [|[u req] rest IH]; intros st H; simpl.
  - exact H.
  - apply IH. now constructor.
Qed.

(** *** The data-model invariant, explicit [null]s apart *)

Lemma optional_case_ok (f : Field) (members : list (str * json))
    (o : option str) (fs : list Field) (old : option str) :
  optional_case f members o fs ->
  obj_get (field_name f) members <> Some JNull ->
  field_ok old = true ->
  field_ok (match fs with [] => old | _ => o end) = true.
Proof.
  intros [H|H|s H Hne] Hnn Hold.
  - exact Hold.
  - congruence.
  - simpl. now rewrite (strip_nonempty _ Hne), strip_trimmed.
Qed.

Lemma is_null_false (v : option json) : is_null v = false -> v <> Some JNull.
Proof. intros H ->. discriminate. Qed.

Lemma app_store_inv (u : UUID) (req : request) (st : store) :
  has_null req = false -> store_inv st -> store_inv (snd (app u req st)).
Proof.
  intros Hnn Hinv. unfold store_inv, list_notes in *.
  pose proof (proj1 (Forall_values _ _ _ _) Hinv) as Hitems.
  destruct (app_store_cases u req st)
    as [->|[(body & p & _ & Hv & ->)
           |[(raw & note_id & body & p & existing & -> & _ & Hv & Hg & ->)
            |(raw & note_id & n & _ & _ & _ & ->)]]];
    [exact Hinv | apply (proj2 (Forall_values _ _ _ _))..].
  - apply Forall_set; [apply uuid_eqb_spec | exact Hitems |].
    apply NoteCreate_validate_inr in Hv as (members & _ & Ht & Hc).
    apply required_field_ok in Ht, Hc.
    unfold note_ok. cbn [snd Note.title Note.content].
    now rewrite Ht, Hc.
  - apply Forall_set; [apply uuid_eqb_spec | exact Hitems |].
    pose proof (Forall_get _ _ _ uuid_eqb_spec _ _ _ _ Hitems Hg) as Hex.
    apply andb_true_iff in Hex as [Hot Hoc]. cbn [snd] in Hot, Hoc.
    apply NoteUpdate_validate_inr in Hv
      as (members & ts & cs & -> & Ht & Hc & Hfs).
    apply optional_field_inr in Ht, Hc.
    simpl in Hnn. apply orb_false_iff in Hnn as [Hnt Hnc].
    apply is_null_false in Hnt, Hnc.
    destruct p as [t c fs]; simpl in *. subst fs.
    rewrite (model_copy_dump existing _ _ _ _ _ Ht Hc).
    unfold note_ok. cbn [snd Note.title Note.content].
    now rewrite (optional_case_ok _ _ _ _ _ Ht Hnt Hot),
      (optional_case_ok _ _ _ _ _ Hc Hnc Hoc).
  - now apply Forall_del.
Qed.

(** Served without explicit [null]s, the store holds only notes with
    non-empty, trimmed title and content. *)
Lemma store_inv_no_null (st : store) : reachable_no_null st -> store_inv st.
Proof.
  induction 1 as [|st u req _ IH Hnn].
  - constructor.
  - now apply app_store_inv.
Qed.

End ApiFacts.

(* ================================================================== *)
(** * The store invariant and partial updates *)

Section UpdateTheorems.

#[local] Abbreviation sget := (PyDict.get Uuid.eqb).
#[local] Abbreviation sset := (PyDict.set Uuid.eqb).

(** C1 (defect in the code).  The data model asks that every stored note
    have a non-empty, trimmed title and content.  The run
    [POST {"title":"A","content":"B"}] then [PUT /notes/{id} {"title": null}]
    ends in a store whose note has no title at all:
    [not_empty_when_present] lets [null] through as if the field were
    absent, but [model_dump(exclude_unset=True)] still counts it as supplied
    and [model_copy] writes it over the title. *)
Theorem C1_null_title_breaks_store_invariant :
  reachable Scenario.st_null
  /\ NoteUpdate_validate Scenario.body_null_title
     = inr (NoteUpdate.mk None None [f_title])
  /\ sget Scenario.id1 Scenario.st_null
     = Some (Note.mk Scenario.id1 None (Some (of_string "B")))
  /\ ~ store_inv Scenario.st_null.
Proof.
  split; [|split; [|split]].
  - apply run_reachable. constructor.
  - reflexivity.
  - vm_compute. reflexivity.
  - intros H. inversion H as [|n l Hn _]. vm_compute in Hn. discriminate.
Qed.

(** C2 (as stated, refuted).  A [PUT] whose valid body supplies only the
    title ["\ud800"] is accepted and the merged note is stored, but no note
    is returned: the answer is 500. *)
Lemma C2_merged_note_not_returned :
  parse_uuid Scenario.id1_raw = Some Scenario.id1
  /\ sget Scenario.id1 Scenario.st_AB_CD = Some Scenario.note_AB
  /\ NoteUpdate_validate Scenario.body_lone_title
     = inr (NoteUpdate.mk (Some Scenario.lone) None [f_title])
  /\ sget Scenario.id1
       (snd (app Scenario.id3
               (PUT_note Scenario.id1_raw Scenario.body_lone_title)
               Scenario.st_AB_CD))
     = Some Scenario.note_lone
  /\ status (fst (app Scenario.id3
                    (PUT_note Scenario.id1_raw Scenario.body_lone_title)
                    Scenario.st_AB_CD)) = 500.
Proof. repeat split. Qed.

(** C2 (amended).  Partial-update frame.  A [PUT /notes/{id}] with a valid
    body on a note that is in the store stores the merged note under that
    id.  A field the body omits keeps its prior value; a field the body
    supplies as a string takes that string, trimmed (so the string itself
    when it carries no outer whitespace), which is the value the validated
    payload holds for it.  In particular a body with only [title] leaves
    [content] alone, and conversely.  When the merged note can be encoded
    the answer is 200 with that note; otherwise it is 500, the store being
    updated all the same. *)
Theorem C2_partial_update_frame
    (st : store) (u : UUID) (raw : str) (note_id : UUID)
    (existing : Note.t) (body : json) (payload : NoteUpdate.t) :
  parse_uuid raw = Some note_id ->
  sget note_id st = Some existing ->
  NoteUpdate_validate body = inr payload ->
  exists updated : Note.t,
    snd (app u (PUT_note raw body) st) = sset note_id updated st
    /\ sget note_id (snd (app u (PUT_note raw body) st)) = Some updated
    /\ fst (app u (PUT_note raw body) st)
       = (if note_encodable updated then mkResponse 200 (c_note updated)
          else internal_server_error)
    /\ Note.id updated = Note.id existing
    /\ (supplied f_title body = None ->
        Note.title updated = Note.title existing)
    /\ (supplied f_content body = None ->
        Note.content updated = Note.content existing)
    /\ (forall s, supplied f_title body = Some (JStr s) ->
          Note.title updated = Some (strip s)
          /\ (trimmed s = true -> Note.title updated = Some s))
    /\ (forall s, supplied f_content body = Some (JStr s) ->
          Note.content updated = Some (strip s)
          /\ (trimmed s = true -> Note.content updated = Some s))
    /\ (forall v, NoteUpdate.title payload = Some v ->
          Note.title updated = Some v)
    /\ (forall v, NoteUpdate.content payload = Some v ->
          Note.content updated = Some v).
Proof.
  intros Hp Hg Hv.
  exists (model_copy existing (model_dump_exclude_unset payload)).
  rewrite (app_put_found u _ _ _ _ _ st Hp Hv Hg). cbn [fst snd].
  split; [reflexivity|].
  split; [apply get_set_same, uuid_eqb_spec|].
  split; [reflexivity|].
  split; [apply model_copy_id|].
  apply NoteUpdate_validate_inr in Hv
    as (members & ts & cs & -> & Ht & Hc & Hfs).
  apply optional_field_inr in Ht, Hc.
  destruct payload as [t c fs]; cbn [NoteUpdate.title NoteUpdate.content
    NoteUpdate.model_fields_set] in *. subst fs.
  rewrite (model_copy_dump existing _ _ _ _ _ Ht Hc).
  cbn [supplied Note.title Note.content].
  split; [exact (optional_case_absent _ _ _ _ _ Ht)|].
  split; [exact (optional_case_absent _ _ _ _ _ Hc)|].
  split; [|split; [|split]].
  - intros s Hs.
    destruct (optional_case_string _ _ _ _ (Note.title existing) _ Ht Hs)
      as [E _].
    split; [exact E|]. intros Htr. now rewrite E, strip_fixed.
  - intros s Hs.
    destruct (optional_case_string _ _ _ _ (Note.content existing) _ Hc Hs)
      as [E _].
    split; [exact E|]. intros Htr. now rewrite E, strip_fixed.
  - intros v Hv. destruct Ht; [discriminate..|exact Hv].
  - intros v Hv. destruct Hc; [discriminate..|exact Hv].
Qed.

Lemma C2_partial_update_frame_witness :
  exists updated : Note.t,
    app Scenario.id3
      (PUT_note Scenario.id1_raw Scenario.body_title_only) Scenario.st_AB_CD
    = (mkResponse 200 (c_note updated),
       sset Scenario.id1 updated Scenario.st_AB_CD)
    /\ Note.title updated = Some (of_string "New")
    /\ Note.content updated = Some (of_string "B").
Proof.
  destruct (C2_partial_update_frame Scenario.st_AB_CD Scenario.id3
              Scenario.id1_raw Scenario.id1 Scenario.note_AB
              Scenario.body_title_only
              (NoteUpdate.mk (Some (of_string "New")) None [f_title])
              eq_refl eq_refl eq_refl)
    as (updated & Hst & _ & Hr & _ & _ & Hc & Ht & _).
  pose proof (proj1 (Ht (of_string " New ") eq_refl)) as Etitle.
  pose proof (Hc eq_refl) as Econtent.
  exists updated. split; [|split; [exact Etitle | exact Econtent]].
  rewrite (surjective_pairing (app _ _ _)), Hst, Hr.
  unfold note_encodable. rewrite Etitle, Econtent. reflexivity.
Defined.

End UpdateTheorems.

(* ================================================================== *)
(** * Errors: refused bodies, unknown and malformed identifiers *)

Section ErrorTheorems.

#[local] Abbreviation sget := (PyDict.get Uuid.eqb).









(** C4 (as stated, refuted).  The store holds a note under the id, yet
    [GET /notes/{id}] does not succeed: the note's title cannot be encoded
    and the answer is 500.  The same holds of a [PUT] with a valid body. *)
Lemma C4_present_but_not_returned :
  reachable Scenario.st_lone
  /\ parse_uuid Scenario.id1_raw = Some Scenario.id1
  /\ sget Scenario.id1 Scenario.st_lone = Some Scenario.note_lone
  /\ status (fst (app Scenario.id3 (GET_note Scenario.id1_raw)
                    Scenario.st_lone)) = 500
  /\ NoteUpdate_validate Scenario.body_content_only
     = inr (NoteUpdate.mk None (Some (of_string "Text")) [f_content])
  /\ status (fst (app Scenario.id3
                    (PUT_note Scenario.id1_raw Scenario.body_content_only)
                    Scenario.st_lone)) = 500.
Proof.
  split; [|repeat split].
  exact (reachable_step NOTES_STORE_initial Scenario.id1
           (POST_notes Scenario.body_lone) reachable_initial).
Qed.

(** C4 (amended).  Unknown identifiers.  For a path parameter that denotes
    the UUID [note_id], each of [GET], [PUT] (with a valid body) and [DELETE]
    answers 404 with detail "Note not found" exactly when the store has no
    note under [note_id], and then returns the store as it was.  When the
    store has such a note, [DELETE] answers 204 with an empty body, and [GET]
    and [PUT] answer 200 provided the note they return can be encoded, 500
    otherwise. *)
Theorem C4_not_found_iff_absent
    (st : store) (u : UUID) (raw : str) (note_id : UUID)
    (body : json) (payload : NoteUpdate.t) :
  parse_uuid raw = Some note_id ->
  NoteUpdate_validate body = inr payload ->
  let missing_note := mkResponse 404 (c_detail "Note not found") in
  (fst (app u (GET_note raw) st) = missing_note <-> sget note_id st = None)
  /\ (fst (app u (PUT_note raw body) st) = missing_note
      <-> sget note_id st = None)
  /\ (fst (app u (DELETE_note raw) st) = missing_note
      <-> sget note_id st = None)
  /\ (sget note_id st = None ->
      snd (app u (GET_note raw) st) = st
      /\ snd (app u (PUT_note raw body) st) = st
      /\ snd (app u (DELETE_note raw) st) = st)
  /\ (forall n, sget note_id st = Some n ->
      let updated := model_copy n (model_dump_exclude_unset payload) in
      fst (app u (GET_note raw) st)
      = (if note_encodable n then mkResponse 200 (c_note n)
         else internal_server_error)
      /\ fst (app u (PUT_note raw body) st)
         = (if note_encodable updated then mkResponse 200 (c_note updated)
            else internal_server_error)
      /\ fst (app u (DELETE_note raw) st) = mkResponse 204 c_empty).
Proof.
  intros Hp Hv missing_note.
  destruct (sget note_id st) as [n|] eqn:Hg.
  - rewrite (app_get_found u _ _ _ st Hp Hg).
    rewrite (app_put_found u _ _ _ _ _ st Hp Hv Hg).
    rewrite (app_delete_found u _ _ _ st Hp Hg).
    cbn [fst snd].
    assert (Hne : forall c, respond 200 c <> missing_note).
    { intros c. unfold respond. destruct (content_encodable c); discriminate. }
    split; [split; [intros H; now apply Hne in H | discriminate]|].
    split; [split; [intros H; now apply Hne in H | discriminate]|].
    split; [split; discriminate|].
    split; [discriminate|].
    intros n' [= <-]. repeat split.
  - rewrite (app_get_absent u _ _ st Hp Hg).
    rewrite (app_put_absent u _ _ _ _ st Hp Hv Hg).
    rewrite (app_delete_absent u _ _ st Hp Hg).
    cbn [fst snd].
    split; [split; reflexivity|].
    split; [split; reflexivity|].
    split; [split; reflexivity|].
    split; [intros _; repeat split|].
    intros n'; discriminate.
Qed.

Lemma C4_not_found_iff_absent_witness :
  fst (app Scenario.id3 (GET_note Scenario.id2_raw) Scenario.st_AB)
  = mkResponse 404 (c_detail "Note not found")
  /\ fst (app Scenario.id3 (GET_note Scenario.id1_raw) Scenario.st_AB)
     = mkResponse 200 (c_note Scenario.note_AB)
  /\ fst (app Scenario.id3 (DELETE_note Scenario.id1_raw) Scenario.st_AB)
     = mkResponse 204 c_empty.
Proof.
  split; [|split].
  - apply (C4_not_found_iff_absent Scenario.st_AB Scenario.id3
             Scenario.id2_raw Scenario.id2 Scenario.body_title_only
             (NoteUpdate.mk (Some (of_string "New")) None [f_title])
             eq_refl eq_refl).
    reflexivity.
  - destruct (C4_not_found_iff_absent Scenario.st_AB Scenario.id3
             Scenario.id1_raw Scenario.id1 Scenario.body_title_only
             (NoteUpdate.mk (Some (of_string "New")) None [f_title])
             eq_refl eq_refl) as (_ & _ & _ & _ & H).
    exact (proj1 (H Scenario.note_AB eq_refl)).
  - destruct (C4_not_found_iff_absent Scenario.st_AB Scenario.id3
             Scenario.id1_raw Scenario.id1 Scenario.body_title_only
             (NoteUpdate.mk (Some (of_string "New")) None [f_title])
             eq_refl eq_refl) as (_ & _ & _ & _ & H).
    exact (proj2 (proj2 (H Scenario.note_AB eq_refl))).
Defined.

(** C5 (as stated, refuted).  [GET /notes/not-a-uuid] is answered 422, not
    404: the path parameter is refused before the handler runs. *)
Lemma C5_malformed_id_is_not_404 :
  parse_uuid (of_string "not-a-uuid") = None
  /\ status (fst (app Scenario.id3 (GET_note (of_string "not-a-uuid"))
                    Scenario.st_AB)) = 422
  /\ fst (app Scenario.id3 (GET_note (of_string "not-a-uuid"))
            Scenario.st_AB)
     <> mkResponse 404 (c_detail "Note not found").
Proof.
  split; [reflexivity|]. split; [reflexivity|]. discriminate.
Qed.

(** C5 (amended).  For every path parameter that is not a well-formed UUID,
    [GET /notes/{id}] is answered 422 with a validation error located at the
    path parameter; the answer does not depend on the store, which is
    returned as it was. *)
Theorem C5_malformed_id_is_unprocessable
    (st : store) (u : UUID) (raw : str) :
  parse_uuid raw = None ->
  app u (GET_note raw) st
  = (mkResponse 422
       (c_errors [([of_string "path"; of_string "note_id"], uuid_parsing)]),
     st)
  /\ (forall st' u', fst (app u' (GET_note raw) st')
                     = fst (app u (GET_note raw) st)).
Proof.
  intros Hp. simpl. rewrite (path_note_id_none _ Hp). split; reflexivity.
Qed.

Lemma C5_malformed_id_is_unprocessable_witness :
  app Scenario.id3 (GET_note (of_string "not-a-uuid")) Scenario.st_AB
  = (mkResponse 422
       (c_errors [([of_string "path"; of_string "note_id"], uuid_parsing)]),
     Scenario.st_AB).
Proof.
  apply (C5_malformed_id_is_unprocessable Scenario.st_AB Scenario.id3
           (of_string "not-a-uuid")).
  reflexivity.
Defined.

End ErrorTheorems.

(* ================================================================== *)
(** * Listing, creating and deleting *)

Section StoreTheorems.

#[local] Abbreviation sget := (PyDict.get Uuid.eqb).
#[local] Abbreviation sset := (PyDict.set Uuid.eqb).
#[local] Abbreviation sdel := (PyDict.del Uuid.eqb).

Lemma keyed_ids (st : store) :
  keyed st -> List.map Note.id (list_notes st) = PyDict.keys st.
Proof.
  unfold keyed, list_notes, PyDict.values, PyDict.keys.
  induction 1 as [|[k n] r Hk _ IH]; simpl; [reflexivity|].
  simpl in Hk. now rewrite Hk, IH.
Qed.

Lemma list_notes_complete (st : store) (k : UUID) (n : Note.t) :
  sget k st = Some n -> In n (list_notes st).
Proof.
  intros H. apply (get_some_in _ _ _ uuid_eqb_spec) in H.
  unfold list_notes, PyDict.values. change n with (snd (k, n)).
  now apply in_map.
Qed.

Lemma list_notes_sound (st : store) (n : Note.t) :
  store_ok st -> In n (list_notes st) -> sget (Note.id n) st = Some n.
Proof.
  intros [Hwf Hk] Hin. unfold list_notes, PyDict.values in Hin.
  apply in_map_iff in Hin as [[k m] [E Hin]]. simpl in E. subst m.
  unfold keyed in Hk. rewrite Forall_forall in Hk.
  pose proof (Hk _ Hin) as Hid. simpl in Hid. rewrite Hid.
  now apply (in_get_some _ _ _ uuid_eqb_spec).
Qed.

Lemma list_notes_nodup (st : store) : store_ok st -> NoDup (list_notes st).
Proof.
  intros [Hwf Hk]. apply (NoDup_map_inv Note.id).
  now rewrite keyed_ids.
Qed.

Lemma created_note (u : UUID) (body : json) (n : Note.t) :
  created u body = Some n <->
  exists p, NoteCreate_validate body = inr p
            /\ n = Note.mk u (Some (NoteCreate.title p))
                             (Some (NoteCreate.content p)).
Proof.
  unfold created. destruct (NoteCreate_validate body) as [e|p]; simpl.
  - split; [discriminate | intros (p & H & _); discriminate].
  - split.
    + intros [= <-]. eauto.
    + intros (p' & [= <-] & ->). reflexivity.
Qed.

Lemma app_post_created (u : UUID) (body : json) (n : Note.t) (st : store) :
  created u body = Some n ->
  app u (POST_notes body) st = (respond 201 (c_note n), sset u n st).
Proof.
  intros H. apply created_note in H as (p & Hv & ->).
  now apply app_post_accepted.
Qed.

(** Creations under fresh, pairwise distinct identifiers extend the listing
    by the created notes, in the order of the requests. *)
Lemma run_posts_fresh (items : list (UUID * json)) (st : store) :
  NoDup (List.map fst items) ->
  (forall k, In k (List.map fst items) -> sget k st = None) ->
  Forall (fun ub => created (fst ub) (snd ub) <> None) items ->
  List.map Some (list_notes (run (posts items) st))
  = List.map Some (list_notes st)
    ++ List.map (fun ub => created (fst ub) (snd ub)) items.
Proof.
  revert st. induction items as [|[u b] rest IH]; intros st Hnd Hfresh Hacc.
  - simpl. now rewrite app_nil_r.
  - simpl in Hnd. inversion Hnd as [|? ? Hnotin Hnd']; subst.
    inversion Hacc as [|? ? Hb Hacc']; subst. simpl in Hb.
    destruct (created u b) as [n|] eqn:Hc; [clear Hb | congruence].
    cbn [posts List.map run fst snd].
    rewrite (app_post_created _ _ _ st Hc). cbn [snd].
    assert (Hu : sget u st = None) by (apply Hfresh; now left).
    rewrite (set_fresh _ _ _ uuid_eqb_spec _ _ _ Hu).
    change (List.map (fun ub => (fst ub, POST_notes (snd ub))) rest)
      with (posts rest).
    rewrite IH; [| exact Hnd' | | exact Hacc'].
    + unfold list_notes, PyDict.values. rewrite !map_app, Hc. simpl.
      now rewrite <- app_assoc.
    + intros k Hk.
      rewrite <- (set_fresh _ _ _ uuid_eqb_spec _ _ _ Hu).
      rewrite (get_set_other _ _ _ uuid_eqb_spec).
      * apply Hfresh. now right.
      * intros ->. contradiction.
Qed.

Lemma app_put_keys (u : UUID) (raw : str) (body : json) (st : store) :
  PyDict.keys (snd (app u (PUT_note raw body) st)) = PyDict.keys st.
Proof.
  destruct (app_store_cases u (PUT_note raw body) st)
    as [->|[(b & p & E & _)
           |[(r & note_id & b & p & existing & _ & _ & _ & Hg & ->)
            |(r & note_id & n & E & _)]]];
    try reflexivity; try discriminate.
  now apply (keys_set_present _ _ _ uuid_eqb_spec) with existing.
Qed.

(** C6 (as stated, refuted).  In the store reached by one accepted
    [POST] with title ["\ud800"], [GET /notes] returns no listing: it is
    answered 500. *)
Lemma C6_listing_not_returned :
  reachable Scenario.st_lone
  /\ list_notes Scenario.st_lone = [Scenario.note_lone]
  /\ status (fst (app Scenario.id3 GET_notes Scenario.st_lone)) = 500.
Proof.
  split; [|repeat split].
  exact (reachable_step NOTES_STORE_initial Scenario.id1
           (POST_notes Scenario.body_lone) reachable_initial).
Qed.

(** C6 (amended).  List completeness and order.  When every note of the
    store can be encoded, [GET /notes] answers 200 with the values of the
    store in dictionary order, which is insertion order; otherwise it
    answers 500.  In every state the listing the handler builds is complete
    and ordered: every stored note is listed, every listed note is the one
    stored under its id, no note is listed twice, and the ids appear in key
    order.  A creation under a fresh id appends its note to the listing and
    an update moves nothing.  After [N] accepted creations from the empty
    store under pairwise distinct ids the listing consists of exactly the
    [N] created notes, in order of creation, each once.  The premise
    [store_ok] holds of every reachable store ([reachable_store_ok]). *)
Theorem C6_list_complete_in_insertion_order
    (st : store) (u : UUID) (items : list (UUID * json)) :
  store_ok st ->
  app u GET_notes st
  = (if forallb note_encodable (list_notes st)
     then mkResponse 200 (c_notes (list_notes st))
     else internal_server_error, st)
  /\ (forall k n, sget k st = Some n -> In n (list_notes st))
  /\ (forall n, In n (list_notes st) -> sget (Note.id n) st = Some n)
  /\ NoDup (list_notes st)
  /\ List.length (list_notes st) = List.length st
  /\ List.map Note.id (list_notes st) = PyDict.keys st
  /\ (forall body n, created u body = Some n -> sget u st = None ->
        list_notes (snd (app u (POST_notes body) st)) = list_notes st ++ [n])
  /\ (forall raw body,
        PyDict.keys (snd (app u (PUT_note raw body) st)) = PyDict.keys st)
  /\ (NoDup (List.map fst items) ->
      Forall (fun ub => created (fst ub) (snd ub) <> None) items ->
      let notes := list_notes (run (posts items) NOTES_STORE_initial) in
      List.map Some notes = List.map (fun ub => created (fst ub) (snd ub)) items
      /\ List.length notes = List.length items
      /\ NoDup notes).
Proof.
  intros Hok.
  split; [reflexivity|].
  split; [apply list_notes_complete|].
  split; [intros n; now apply list_notes_sound|].
  split; [now apply list_notes_nodup|].
  split; [apply length_map|].
  split; [apply keyed_ids, Hok|].
  split.
  - intros body n Hc Hu. rewrite (app_post_created _ _ _ st Hc). cbn [snd].
    rewrite (set_fresh _ _ _ uuid_eqb_spec _ _ _ Hu).
    unfold list_notes, PyDict.values. now rewrite map_app.
  - split; [intros raw body; apply app_put_keys|].
    intros Hnd Hacc notes.
    assert (E : List.map Some notes
                = List.map (fun ub => created (fst ub) (snd ub)) items).
    { unfold notes. rewrite run_posts_fresh; auto. }
    split; [exact E|]. split.
    + apply (f_equal (@List.length _)) in E. now rewrite !length_map in E.
    + apply list_notes_nodup, reachable_store_ok, run_reachable. constructor.
Qed.

Lemma C6_list_complete_in_insertion_order_witness :
  app Scenario.id3 GET_notes Scenario.st_AB_CD
  = (mkResponse 200 (c_notes [Scenario.note_AB; Scenario.note_CD]),
     Scenario.st_AB_CD)
  /\ list_notes (run (posts [(Scenario.id1, Scenario.body_AB);
                             (Scenario.id2, Scenario.body_CD)])
                   NOTES_STORE_initial)
     = [Scenario.note_AB; Scenario.note_CD].
Proof.
  assert (Hok : store_ok Scenario.st_AB_CD).
  { split.
    - repeat constructor; simpl; intuition discriminate.
    - repeat constructor. }
  destruct (C6_list_complete_in_insertion_order Scenario.st_AB_CD
              Scenario.id3
              [(Scenario.id1, Scenario.body_AB);
               (Scenario.id2, Scenario.body_CD)] Hok)
    as (Hget & _ & _ & _ & _ & _ & _ & _ & Hn).
  split; [exact Hget|].
  destruct Hn as (E & _ & _).
  - repeat constructor; simpl; intuition discriminate.
  - repeat constructor; discriminate.
  - apply (f_equal (List.map (fun o => match o with
                                       | Some n => n
                                       | None => Scenario.note_AB
                                       end))) in E.
    rewrite map_map, map_id in E. exact E.
Defined.







(** C9 (as stated, refuted).  A create that lands on an existing id with a
    title that cannot be encoded overwrites the note there, and does not
    return success: the answer is 500. *)
Lemma C9_overwrite_without_success :
  NoteCreate_validate Scenario.body_lone
  = inr (NoteCreate.mk Scenario.lone (of_string "B"))
  /\ sget Scenario.id1 Scenario.st_AB = Some Scenario.note_AB
  /\ snd (app Scenario.id1 (POST_notes Scenario.body_lone) Scenario.st_AB)
     = Scenario.st_lone
  /\ status (fst (app Scenario.id1 (POST_notes Scenario.body_lone)
                    Scenario.st_AB)) = 500.
Proof. repeat split. Qed.

(** C9 (amended).  Create performs no existence check.  With the generated
    id taken as an input, an accepted [POST /notes] always writes the new
    note under that id.  If the id is already a key, the note that was there
    is replaced, the keys and the size of the store stay as they were;
    otherwise the note is appended.  Entries under other ids are not
    touched.  The answer is 201 with the note when the note can be encoded,
    500 otherwise, the write having taken place. *)
Theorem C9_create_overwrites_silently
    (st : store) (u : UUID) (body : json) (payload : NoteCreate.t) :
  NoteCreate_validate body = inr payload ->
  let note := Note.mk u (Some (NoteCreate.title payload))
                        (Some (NoteCreate.content payload)) in
  let st' := snd (app u (POST_notes body) st) in
  fst (app u (POST_notes body) st)
  = (if note_encodable note then mkResponse 201 (c_note note)
     else internal_server_error)
  /\ sget u st' = Some note
  /\ (forall old, sget u st = Some old ->
        List.length st' = List.length st
        /\ PyDict.keys st' = PyDict.keys st)
  /\ (sget u st = None -> st' = st ++ [(u, note)])
  /\ (forall k, k <> u -> sget k st' = sget k st).
Proof.
  intros Hv note st'. unfold st'.
  rewrite (app_post_accepted u _ _ st Hv). cbv zeta. cbn [fst snd].
  split; [reflexivity|].
  split; [apply get_set_same, uuid_eqb_spec|].
  split; [|split].
  - intros old Hg. split.
    + now apply (length_set_present _ _ _ uuid_eqb_spec) with old.
    + now apply (keys_set_present _ _ _ uuid_eqb_spec) with old.
  - apply set_fresh, uuid_eqb_spec.
  - intros k Hk. now apply get_set_other; [apply uuid_eqb_spec|].
Qed.

Lemma C9_create_overwrites_silently_witness :
  app Scenario.id1 (POST_notes Scenario.body_CD) Scenario.st_AB
  = (mkResponse 201
       (c_note (Note.mk Scenario.id1 (Some (of_string "C"))
                                     (Some (of_string "D")))),
     [(Scenario.id1, Note.mk Scenario.id1 (Some (of_string "C"))
                                          (Some (of_string "D")))])
  /\ List.length (snd (app Scenario.id1 (POST_notes Scenario.body_CD)
                         Scenario.st_AB))
     = List.length Scenario.st_AB.
Proof.
  split; [reflexivity|].
  apply (C9_create_overwrites_silently Scenario.st_AB Scenario.id1
           Scenario.body_CD (NoteCreate.mk (of_string "C") (of_string "D"))
           eq_refl) with Scenario.note_AB.
  reflexivity.
Defined.

Lemma keyed_filter (p : UUID -> bool) (st : store) :
  keyed st ->
  list_notes (List.filter (fun kv => p (fst kv)) st)
  = List.filter (fun n => p (Note.id n)) (list_notes st).
Proof.
  unfold keyed, list_notes, PyDict.values.
  induction 1 as [|[k n] r Hk _ IH]; simpl; [reflexivity|].
  simpl in Hk. rewrite Hk. destruct (p k); simpl; now rewrite IH.
Qed.

(** C10.  Delete frame.  When the store has a note under [d],
    [DELETE /notes/{d}] answers 204 and removes that one entry: [d] is no
    longer a key, every other id maps to the note it mapped to before, and
    the listing afterwards is the previous listing with the note of id [d]
    taken out, the others in the same relative order; that listing is what
    [GET /notes] then returns whenever it answers 200.  The premise
    [store_ok] holds of every reachable store ([reachable_store_ok]). *)
Theorem C10_delete_frame
    (st : store) (u u' : UUID) (raw : str) (d : UUID) (n : Note.t) :
  store_ok st ->
  parse_uuid raw = Some d ->
  sget d st = Some n ->
  let st' := snd (app u (DELETE_note raw) st) in
  let remaining :=
    List.filter (fun m => negb (Uuid.eqb d (Note.id m))) (list_notes st) in
  fst (app u (DELETE_note raw) st) = mkResponse 204 c_empty
  /\ sget d st' = None
  /\ (forall k, k <> d -> sget k st' = sget k st)
  /\ Datatypes.S (List.length st') = List.length st
  /\ list_notes st' = remaining
  /\ (forall notes,
        fst (app u' GET_notes st') = mkResponse 200 (c_notes notes) ->
        notes = remaining)
  /\ (forallb note_encodable remaining = true ->
      fst (app u' GET_notes st') = mkResponse 200 (c_notes remaining)).
Proof.
  intros [Hwf Hk] Hp Hg st' remaining. unfold st'.
  rewrite (app_delete_found u _ _ _ st Hp Hg). cbn [fst snd].
  assert (Hl : list_notes (sdel d st) = remaining).
  { rewrite (del_filter _ _ _ uuid_eqb_spec d st Hwf).
    now apply (keyed_filter (fun k => negb (Uuid.eqb d k))). }
  split; [reflexivity|].
  split; [now apply get_del_same; [apply uuid_eqb_spec|]|].
  split; [intros k Hne; now apply get_del_other; [apply uuid_eqb_spec|]|].
  split; [now apply (length_del_present _ _ _ uuid_eqb_spec) with n|].
  split; [exact Hl|].
  cbn [app fst]. rewrite Hl. unfold respond. cbn [content_encodable].
  split.
  - intros notes. destruct (forallb note_encodable remaining);
      [now intros [= <-] | discriminate].
  - now intros ->.
Qed.

Lemma C10_delete_frame_witness :
  app Scenario.id3 (DELETE_note Scenario.id1_raw) Scenario.st_AB_CD
  = (mkResponse 204 c_empty, [(Scenario.id2, Scenario.note_CD)])
  /\ list_notes (snd (app Scenario.id3 (DELETE_note Scenario.id1_raw)
                        Scenario.st_AB_CD))
     = List.filter (fun m => negb (Uuid.eqb Scenario.id1 (Note.id m)))
         (list_notes Scenario.st_AB_CD).
Proof.
  split; [reflexivity|].
  assert (Hok : store_ok Scenario.st_AB_CD).
  { split.
    - repeat constructor; simpl; intuition discriminate.
    - repeat constructor. }
  destruct (C10_delete_frame Scenario.st_AB_CD Scenario.id3 Scenario.id3
              Scenario.id1_raw Scenario.id1 Scenario.note_AB Hok
              eq_refl eq_refl) as (_ & _ & _ & _ & Hl & _).
  exact Hl.
Defined.

End StoreTheorems.

(* ================================================================== *)
(** * Further properties: the validators *)

Section ValidatorTheorems.

Lemma lstrip_nil_iff (s : str) : lstrip s = [] <-> forallb isspace s = true.
Proof.
  induction s as [|c r IH]; simpl; [tauto|].
  destruct (isspace c); simpl; [exact IH|].
  split; discriminate.
Qed.

Lemma rev_nil_iff (A : Type) (l : list A) : rev l = [] <-> l = [].
Proof.
  split; [|intros ->; reflexivity].
  intros H. apply (f_equal (@rev A)) in H. now rewrite rev_involutive in H.
Qed.

(** [strip] returns the empty string exactly on strings made of whitespace
    only. *)
Lemma strip_nil_iff (s : str) : strip s = [] <-> forallb isspace s = true.
Proof.
  split.
  - intros H. pose proof (strip_decompose s) as D. rewrite H in D.
    rewrite D, forallb_app. simpl.
    now rewrite leading_all_space, trailing_all_space.
  - intros H. unfold strip, rstrip.
    now rewrite (proj2 (lstrip_nil_iff s) H).
Qed.

Lemma has_text_forallb (s : str) : has_text s = negb (forallb isspace s).
Proof.
  unfold has_text. induction s as [|c r IH]; simpl; [reflexivity|].
  rewrite IH. now destruct (isspace c).
Qed.

Lemma strip_eqb_has_text (s : str) :
  PyStr.eqb (strip s) [] = negb (has_text s).
Proof.
  rewrite has_text_forallb, negb_involutive.
  destruct (eqb_spec (strip s) []) as [E|E].
  - symmetry. now apply strip_nil_iff.
  - destruct (forallb isspace s) eqn:F; [|reflexivity].
    now apply strip_nil_iff in F.
Qed.

(** X1.  [not_empty] accepts exactly the strings that contain a character
    which is not whitespace, and then returns the stripped string; every
    other string, the empty one included, is refused with "must not be
    empty", and a value that is not a string with "must be a string". *)
Theorem X1_not_empty_accepts_text (s : str) :
  not_empty (JStr s)
  = (if has_text s then inr (strip s) else inl "must not be empty"%string)
  /\ not_empty JNull = inl "must be a string"%string
  /\ (forall b, not_empty (JBool b) = inl "must be a string"%string)
  /\ (forall n, not_empty (JNum n) = inl "must be a string"%string)
  /\ (forall l, not_empty (JArr l) = inl "must be a string"%string)
  /\ (forall m, not_empty (JObj m) = inl "must be a string"%string).
Proof.
  split; [|repeat split].
  simpl. rewrite strip_eqb_has_text. now destruct (has_text s).
Qed.

(** X2.  What [not_empty] returns is non-empty, has no whitespace at either
    end, and is a fixed point of the validator: validating it again returns
    it unchanged. *)
Theorem X2_not_empty_result_is_stable (v : json) (s' : str) :
  not_empty v = inr s' ->
  nonempty s' = true /\ trimmed s' = true /\ not_empty (JStr s') = inr s'.
Proof.
  destruct v; simpl; try discriminate.
  destruct (PyStr.eqb (strip s) []) eqn:E; [discriminate|].
  intros [= <-].
  split; [now apply strip_nonempty|].
  split; [apply strip_trimmed|].
  now rewrite strip_idempotent, E.
Qed.

Lemma X2_not_empty_result_is_stable_witness :
  not_empty (JStr (of_string "A note")) = inr (of_string "A note").
Proof.
  apply (X2_not_empty_result_is_stable (JStr (of_string "  A note "))
           (of_string "A note")).
  reflexivity.
Defined.

(** X3.  [not_empty_when_present] passes [None] through as [None], and on
    every other value decides as [not_empty] does, with the same message or
    the same stripped string. *)
Theorem X3_when_present_agrees_with_not_empty (v : json) :
  not_empty_when_present JNull = inr None
  /\ (v <> JNull ->
      not_empty_when_present v
      = match not_empty v with
        | inl msg => inl msg
        | inr s => inr (Some s)
        end).
Proof.
  split; [reflexivity|].
  intros H. destruct v; try reflexivity; [congruence|].
  simpl. now destruct (PyStr.eqb (strip s) []).
Qed.

Lemma X3_when_present_agrees_with_not_empty_witness :
  not_empty_when_present (JStr (of_string " B ")) = inr (Some (of_string "B")).
Proof.
  apply (X3_when_present_agrees_with_not_empty (JStr (of_string " B "))).
  discriminate.
Defined.

(** X4.  A create body is accepted exactly when both [title] and [content]
    are supplied as strings containing a non-whitespace character; the
    payload then holds the two stripped strings. *)
Theorem X4_create_body_accepted_iff (body : json) (p : NoteCreate.t) :
  NoteCreate_validate body = inr p <->
  exists t c,
    supplied f_title body = Some (JStr t)
    /\ supplied f_content body = Some (JStr c)
    /\ has_text t = true /\ has_text c = true
    /\ p = NoteCreate.mk (strip t) (strip c).
Proof.
  rewrite NoteCreate_validate_inr. split.
  - intros (members & -> & Ht & Hc).
    apply required_field_inr in Ht as (t & Ht & Et & Pt).
    apply required_field_inr in Hc as (c & Hc & Ec & Pc).
    exists t, c. simpl.
    rewrite strip_eqb_has_text in Et, Ec.
    apply negb_false_iff in Et, Ec.
    destruct p as [pt pc]; simpl in *. subst. auto.
  - intros (t & c & Ht & Hc & Tt & Tc & ->).
    destruct body as [| | | | |members]; try discriminate.
    exists members. simpl in *.
    split; [reflexivity|].
    split; apply required_field_inr; eexists; split; try eassumption;
      rewrite strip_eqb_has_text; split; try reflexivity;
      now apply negb_false_iff.
Qed.

Lemma X4_create_body_accepted_iff_witness :
  NoteCreate_validate Scenario.body_padded
  = inr (NoteCreate.mk (of_string "A note") (of_string "B")).
Proof.
  apply (X4_create_body_accepted_iff Scenario.body_padded
           (NoteCreate.mk (of_string "A note") (of_string "B"))).
  exists (of_string "  A note "), (of_string " B ").
  repeat split.
Defined.

End ValidatorTheorems.

(* ================================================================== *)
(** * Further properties: the handlers *)

Section MoreDictFacts.

Variables K V : Type.
Variable keqb : K -> K -> bool.
Hypothesis keqb_spec : forall a b, reflect (a = b) (keqb a b).

#[local] Abbreviation get := (PyDict.get keqb).
#[local] Abbreviation set := (PyDict.set keqb).
#[local] Abbreviation del := (PyDict.del keqb).

(** Writing back the value a key already has changes nothing. *)
Lemma set_same_value (k : K) (v : V) (d : PyDict.t K V) :
  get k d = Some v -> set k v d = d.
Proof.
  induction d as [|[k' v'] r IH]; simpl; [discriminate|].
  destruct (keqb_spec k k') as [->|Hne].
  - now intros [= ->].
  - intros H. now rewrite IH.
Qed.

Lemma set_set_same (k : K) (v w : V) (d : PyDict.t K V) :
  set k w (set k v d) = set k w d.
Proof.
  induction d as [|[k' v'] r IH]; simpl.
  - destruct (keqb_spec k k); [reflexivity | congruence].
  - destruct (keqb_spec k k') as [->|Hne]; simpl.
    + destruct (keqb_spec k' k'); [reflexivity | congruence].
    + destruct (keqb_spec k k'); [congruence | now rewrite IH].
Qed.

Lemma del_set_fresh (k : K) (v : V) (d : PyDict.t K V) :
  get k d = None -> del k (set k v d) = d.
Proof.
  induction d as [|[k' v'] r IH]; simpl.
  - destruct (keqb_spec k k); [reflexivity | congruence].
  - destruct (keqb_spec k k') as [->|Hne]; [discriminate|]. simpl.
    destruct (keqb_spec k k'); [congruence|].
    intros H. now rewrite IH.
Qed.

End MoreDictFacts.

Section HandlerTheorems.

#[local] Abbreviation sget := (PyDict.get Uuid.eqb).
#[local] Abbreviation sset := (PyDict.set Uuid.eqb).
#[local] Abbreviation sdel := (PyDict.del Uuid.eqb).

(** X5.  The three [GET] routes never change the store, whatever the path
    parameter, and answer 200, 404, 422 or 500 only, 500 being the answer
    when a note to return cannot be encoded; [GET /] answers 200 with the
    message "Healthy" in every state. *)
Theorem X5_get_requests_are_read_only
    (st : store) (u : UUID) (req : request) :
  is_get req = true ->
  snd (app u req st) = st
  /\ (status (fst (app u req st)) = 200
      \/ status (fst (app u req st)) = 404
      \/ status (fst (app u req st)) = 422
      \/ status (fst (app u req st)) = 500)
  /\ (forallb note_encodable (list_notes st) = true ->
      status (fst (app u req st)) <> 500)
  /\ fst (app u GET_root st) = mkResponse 200 (c_message "Healthy").
Proof.
  intros Hreq. destruct req as [| | |raw| |]; try discriminate; simpl.
  - repeat split; auto. discriminate.
  - unfold respond. cbn [content_encodable].
    destruct (forallb note_encodable (list_notes st)); simpl;
      repeat split; auto; discriminate.
  - destruct (path_note_id raw) as [e|note_id]; simpl.
    { repeat split; auto. discriminate. }
    unfold get_note. destruct (sget note_id st) as [n|] eqn:Hg; simpl.
    + unfold respond. cbn [content_encodable].
      destruct (note_encodable n) eqn:En; simpl; repeat split; auto;
        try discriminate.
      intros Hall. exfalso.
      rewrite forallb_forall in Hall.
      rewrite (Hall n (list_notes_complete _ _ _ Hg)) in En. discriminate.
    + repeat split; auto. discriminate.
Qed.

Lemma X5_get_requests_are_read_only_witness :
  snd (app Scenario.id3 (GET_note Scenario.id2_raw) Scenario.st_AB)
  = Scenario.st_AB.
Proof.
  apply (X5_get_requests_are_read_only Scenario.st_AB Scenario.id3
           (GET_note Scenario.id2_raw)).
  reflexivity.
Defined.

(** X6.  Once a note has been deleted, its id is unknown: a following
    [GET], [PUT] (with a valid body) or second [DELETE] on the same id is
    answered 404 "Note not found" and leaves the store as the first
    [DELETE] left it. *)
Theorem X6_deleted_note_is_gone
    (st : store) (u u' : UUID) (raw : str) (d : UUID) (n : Note.t)
    (body : json) (payload : NoteUpdate.t) :
  PyDict.wf st ->
  parse_uuid raw = Some d ->
  sget d st = Some n ->
  NoteUpdate_validate body = inr payload ->
  let st' := snd (app u (DELETE_note raw) st) in
  let missing_note := mkResponse 404 (c_detail "Note not found") in
  app u' (GET_note raw) st' = (missing_note, st')
  /\ app u' (PUT_note raw body) st' = (missing_note, st')
  /\ app u' (DELETE_note raw) st' = (missing_note, st').
Proof.
  intros Hwf Hp Hg Hv st' missing_note. unfold st'.
  rewrite (app_delete_found u _ _ _ st Hp Hg). cbn [snd].
  assert (Hgone : sget d (sdel d st) = None)
    by (now apply get_del_same; [apply uuid_eqb_spec|]).
  split; [exact (app_get_absent u' _ _ _ Hp Hgone)|].
  split; [exact (app_put_absent u' _ _ _ _ _ Hp Hv Hgone)|].
  exact (app_delete_absent u' _ _ _ Hp Hgone).
Qed.

Lemma X6_deleted_note_is_gone_witness :
  app Scenario.id3 (GET_note Scenario.id1_raw)
    (snd (app Scenario.id3 (DELETE_note Scenario.id1_raw) Scenario.st_AB_CD))
  = (mkResponse 404 (c_detail "Note not found"),
     [(Scenario.id2, Scenario.note_CD)]).
Proof.
  assert (Hwf : PyDict.wf Scenario.st_AB_CD)
    by (repeat constructor; simpl; intuition discriminate).
  apply (X6_deleted_note_is_gone Scenario.st_AB_CD Scenario.id3 Scenario.id3
           Scenario.id1_raw Scenario.id1 Scenario.note_AB
           Scenario.body_title_only
           (NoteUpdate.mk (Some (of_string "New")) None [f_title])
           Hwf eq_refl eq_refl eq_refl).
Defined.

(** X7.  Creating a note under an id that is not yet a key and deleting it
    right away gives back exactly the store there was before. *)
Theorem X7_create_then_delete_restores
    (st : store) (u u' : UUID) (raw : str) (body : json)
    (payload : NoteCreate.t) :
  NoteCreate_validate body = inr payload ->
  parse_uuid raw = Some u ->
  sget u st = None ->
  app u' (DELETE_note raw) (snd (app u (POST_notes body) st))
  = (mkResponse 204 c_empty, st).
Proof.
  intros Hv Hp Hfresh.
  rewrite (app_post_accepted u _ _ st Hv). cbv zeta. cbn [snd].
  erewrite app_delete_found;
    [| exact Hp | apply get_set_same, uuid_eqb_spec].
  now rewrite (del_set_fresh _ _ _ uuid_eqb_spec).
Qed.

Lemma X7_create_then_delete_restores_witness :
  app Scenario.id3 (DELETE_note Scenario.id2_raw)
    (snd (app Scenario.id2 (POST_notes Scenario.body_CD) Scenario.st_AB))
  = (mkResponse 204 c_empty, Scenario.st_AB).
Proof.
  apply (X7_create_then_delete_restores Scenario.st_AB Scenario.id2
           Scenario.id3 Scenario.id2_raw Scenario.body_CD
           (NoteCreate.mk (of_string "C") (of_string "D"))
           eq_refl eq_refl eq_refl).
Defined.

(** X8.  A [PUT] whose body supplies neither [title] nor [content] (the
    empty object, or an object with other keys only) on a note that is in the
    store leaves the store exactly as it was; it answers 200 with that note
    when the note can be encoded, 500 otherwise. *)
Theorem X8_update_without_fields_is_identity
    (st : store) (u : UUID) (raw : str) (note_id : UUID) (existing : Note.t)
    (members : list (str * json)) :
  parse_uuid raw = Some note_id ->
  sget note_id st = Some existing ->
  supplied f_title (JObj members) = None ->
  supplied f_content (JObj members) = None ->
  app u (PUT_note raw (JObj members)) st
  = (if note_encodable existing then mkResponse 200 (c_note existing)
     else internal_server_error, st).
Proof.
  intros Hp Hg Ht Hc. cbn [supplied] in Ht, Hc.
  assert (Hv : NoteUpdate_validate (JObj members)
               = inr (NoteUpdate.mk None None [])).
  { unfold NoteUpdate_validate, optional_field. now rewrite Ht, Hc. }
  rewrite (app_put_found u _ _ _ _ _ st Hp Hv Hg). cbv zeta.
  change (model_copy existing
            (model_dump_exclude_unset (NoteUpdate.mk None None [])))
    with existing.
  now rewrite (set_same_value _ _ _ uuid_eqb_spec _ _ _ Hg).
Qed.

Lemma X8_update_without_fields_is_identity_witness :
  app Scenario.id3 (PUT_note Scenario.id1_raw (JObj [])) Scenario.st_AB_CD
  = (mkResponse 200 (c_note Scenario.note_AB), Scenario.st_AB_CD).
Proof.
  apply (X8_update_without_fields_is_identity Scenario.st_AB_CD Scenario.id3
           Scenario.id1_raw Scenario.id1 Scenario.note_AB []
           eq_refl eq_refl eq_refl eq_refl).
Defined.

(** X9.  [PUT] is idempotent: sending the same accepted update a second
    time gives the same answer and the same store as sending it once. *)
Theorem X9_update_is_idempotent
    (st : store) (u u' : UUID) (raw : str) (note_id : UUID)
    (existing : Note.t) (body : json) (payload : NoteUpdate.t) :
  parse_uuid raw = Some note_id ->
  sget note_id st = Some existing ->
  NoteUpdate_validate body = inr payload ->
  app u' (PUT_note raw body) (snd (app u (PUT_note raw body) st))
  = app u (PUT_note raw body) st.
Proof.
  intros Hp Hg Hv.
  rewrite (app_put_found u _ _ _ _ _ st Hp Hv Hg). cbv zeta. cbn [snd].
  set (updated := model_copy existing (model_dump_exclude_unset payload)).
  assert (Hg' : sget note_id (sset note_id updated st) = Some updated)
    by apply get_set_same, uuid_eqb_spec.
  rewrite (app_put_found u' _ _ _ _ _ _ Hp Hv Hg'). cbv zeta.
  assert (E : model_copy updated (model_dump_exclude_unset payload) = updated).
  { unfold updated.
    apply NoteUpdate_validate_inr in Hv
      as (members & ts & cs & _ & Ht & Hc & Hfs).
    apply optional_field_inr in Ht, Hc.
    destruct payload as [t c fs]; cbn [NoteUpdate.title NoteUpdate.content
      NoteUpdate.model_fields_set] in *. subst fs.
    rewrite !(model_copy_dump _ _ _ _ _ _ Ht Hc).
    cbn [Note.id Note.title Note.content].
    now destruct Ht, Hc. }
  rewrite E. now rewrite (set_set_same _ _ _ uuid_eqb_spec).
Qed.

Lemma X9_update_is_idempotent_witness :
  app Scenario.id3 (PUT_note Scenario.id1_raw Scenario.body_title_only)
    (snd (app Scenario.id3
            (PUT_note Scenario.id1_raw Scenario.body_title_only)
            Scenario.st_AB_CD))
  = app Scenario.id3 (PUT_note Scenario.id1_raw Scenario.body_title_only)
      Scenario.st_AB_CD.
Proof.
  apply (X9_update_is_idempotent Scenario.st_AB_CD Scenario.id3 Scenario.id3
           Scenario.id1_raw Scenario.id1 Scenario.note_AB
           Scenario.body_title_only
           (NoteUpdate.mk (Some (of_string "New")) None [f_title])
           eq_refl eq_refl eq_refl).
Defined.

End HandlerTheorems.

(* ================================================================== *)
(** * Further properties: what every run preserves *)

Section RunTheorems.

#[local] Abbreviation sget := (PyDict.get Uuid.eqb).
#[local] Abbreviation sset := (PyDict.set Uuid.eqb).
#[local] Abbreviation sdel := (PyDict.del Uuid.eqb).

(** X10.  In every state the service can reach, the keys of the store are
    pairwise distinct and each note is filed under its own id; so a
    [GET /notes/{id}] that succeeds returns a note carrying the id that was
    asked for. *)
Theorem X10_notes_are_filed_under_their_id
    (st : store) (u : UUID) (raw : str) (note_id : UUID) (n : Note.t) :
  reachable st ->
  NoDup (PyDict.keys st)
  /\ (forall k m, sget k st = Some m -> Note.id m = k)
  /\ (parse_uuid raw = Some note_id ->
      fst (app u (GET_note raw) st) = mkResponse 200 (c_note n) ->
      Note.id n = note_id).
Proof.
  intros Hr. destruct (reachable_store_ok _ Hr) as [Hwf Hk].
  assert (Hid : forall k m, sget k st = Some m -> Note.id m = k).
  { intros k m Hg.
    exact (Forall_get _ _ _ uuid_eqb_spec _ _ _ _ Hk Hg). }
  split; [exact Hwf|]. split; [exact Hid|].
  intros Hp. simpl. rewrite (path_note_id_some _ _ Hp).
  unfold get_note. destruct (sget note_id st) as [m|] eqn:Hg; simpl.
  - unfold respond. destruct (content_encodable (c_note m)); [|discriminate].
    intros [= <-]. now apply Hid.
  - discriminate.
Qed.

Lemma X10_notes_are_filed_under_their_id_witness :
  NoDup (PyDict.keys Scenario.st_null)
  /\ forall k m, sget k Scenario.st_null = Some m -> Note.id m = k.
Proof.
  assert (Hr : reachable Scenario.st_null)
    by (apply run_reachable; constructor).
  destruct (X10_notes_are_filed_under_their_id Scenario.st_null Scenario.id3
              Scenario.id1_raw Scenario.id1 Scenario.note_AB Hr)
    as (H1 & H2 & _).
  split; [exact H1 | exact H2].
Defined.

Lemma field_ok_shape (v : option str) :
  field_ok v = true -> field_shape v = true.
Proof. destruct v; [trivial | discriminate]. Qed.

Lemma optional_case_shape (f : Field) (members : list (str * json))
    (o : option str) (fs : list Field) (old : option str) :
  optional_case f members o fs ->
  field_shape old = true ->
  field_shape (match fs with [] => old | _ => o end) = true.
Proof.
  intros [H|H|s H Hne] Hold; [exact Hold | reflexivity |].
  simpl. now rewrite (strip_nonempty _ Hne), strip_trimmed.
Qed.

Lemma app_store_shape (u : UUID) (req : request) (st : store) :
  Forall (fun kv => note_shape (snd kv) = true) st ->
  Forall (fun kv => note_shape (snd kv) = true) (snd (app u req st)).
Proof.
  intros Hitems.
  destruct (app_store_cases u req st)
    as [->|[(body & p & _ & Hv & ->)
           |[(raw & note_id & body & p & existing & -> & _ & Hv & Hg & ->)
            |(raw & note_id & n & _ & _ & _ & ->)]]].
  - exact Hitems.
  - apply Forall_set; [apply uuid_eqb_spec | exact Hitems |].
    apply NoteCreate_validate_inr in Hv as (members & _ & Ht & Hc).
    apply required_field_ok, field_ok_shape in Ht, Hc.
    unfold note_shape. cbn [snd Note.title Note.content].
    now rewrite Ht, Hc.
  - apply Forall_set; [apply uuid_eqb_spec | exact Hitems |].
    pose proof (Forall_get _ _ _ uuid_eqb_spec _ _ _ _ Hitems Hg) as Hex.
    apply andb_true_iff in Hex as [Hot Hoc]. cbn [snd] in Hot, Hoc.
    apply NoteUpdate_validate_inr in Hv
      as (members & ts & cs & -> & Ht & Hc & Hfs).
    apply optional_field_inr in Ht, Hc.
    destruct p as [t c fs]; cbn [NoteUpdate.title NoteUpdate.content
      NoteUpdate.model_fields_set] in *. subst fs.
    rewrite (model_copy_dump existing _ _ _ _ _ Ht Hc).
    unfold note_shape. cbn [snd Note.title Note.content].
    now rewrite (optional_case_shape _ _ _ _ _ Ht Hot),
      (optional_case_shape _ _ _ _ _ Hc Hoc).
  - now apply Forall_del.
Qed.

(** X11.  Whatever the requests, explicit [null]s included, a title or
    content held in the store is either [None] or a string that is non-empty
    and has no whitespace at either end: no run stores an empty or an
    untrimmed string. *)
Theorem X11_stored_fields_are_none_or_trimmed (st : store) (n : Note.t) :
  reachable st ->
  In n (list_notes st) ->
  note_shape n = true.
Proof.
  intros Hr.
  assert (H : Forall (fun kv => note_shape (snd kv) = true) st).
  { induction Hr as [|st u req _ IH]; [constructor|].
    now apply app_store_shape. }
  intros Hin. unfold list_notes, PyDict.values in Hin.
  apply in_map_iff in Hin as [kv [<- Hin]].
  rewrite Forall_forall in H. now apply H.
Qed.

Lemma X11_stored_fields_are_none_or_trimmed_witness :
  note_shape (Note.mk Scenario.id1 None (Some (of_string "B"))) = true.
Proof.
  apply (X11_stored_fields_are_none_or_trimmed Scenario.st_null).
  - apply run_reachable. constructor.
  - left. reflexivity.
Defined.

(** X12.  As long as no update body carries an explicit [null], every note
    the store holds has a non-empty, trimmed title and content, and so has
    every note of a listing that [GET /notes] returns. *)
Theorem X12_invariant_without_null
    (st : store) (u : UUID) (n : Note.t) (notes : list Note.t) :
  reachable_no_null st ->
  (In n (list_notes st) -> note_ok n = true)
  /\ (fst (app u GET_notes st) = mkResponse 200 (c_notes notes) ->
      In n notes -> note_ok n = true).
Proof.
  intros Hr.
  pose proof (store_inv_no_null _ Hr) as H. unfold store_inv in H.
  rewrite Forall_forall in H.
  split; [apply H|].
  cbn [app fst]. unfold respond. cbn [content_encodable].
  destruct (forallb note_encodable (list_notes st)); [|discriminate].
  intros [= <-]. apply H.
Qed.

Lemma X12_invariant_without_null_witness :
  note_ok Scenario.note_AB = true.
Proof.
  assert (Hr : reachable_no_null Scenario.st_AB).
  { apply (no_null_step NOTES_STORE_initial Scenario.id1
             (POST_notes Scenario.body_AB)); [constructor | reflexivity]. }
  apply (proj1 (X12_invariant_without_null Scenario.st_AB Scenario.id3
                  Scenario.note_AB [] Hr)).
  left. reflexivity.
Defined.

(** X13.  An accepted [PUT] on a note that is in the store touches that
    note only: every other id maps to the note it mapped to before, the
    store keeps its size, and a [GET] on the updated id right after returns
    the note the [PUT] returned. *)
Theorem X13_update_touches_one_note
    (st : store) (u u' : UUID) (raw : str) (note_id : UUID)
    (existing : Note.t) (body : json) (payload : NoteUpdate.t) :
  parse_uuid raw = Some note_id ->
  sget note_id st = Some existing ->
  NoteUpdate_validate body = inr payload ->
  let st' := snd (app u (PUT_note raw body) st) in
  (forall k, k <> note_id -> sget k st' = sget k st)
  /\ List.length st' = List.length st
  /\ fst (app u' (GET_note raw) st') = fst (app u (PUT_note raw body) st).
Proof.
  intros Hp Hg Hv st'. unfold st'.
  rewrite (app_put_found u _ _ _ _ _ st Hp Hv Hg). cbv zeta. cbn [fst snd].
  split; [intros k Hk; now apply get_set_other; [apply uuid_eqb_spec|]|].
  split; [now apply (length_set_present _ _ _ uuid_eqb_spec) with existing|].
  erewrite app_get_found;
    [reflexivity | exact Hp | apply get_set_same, uuid_eqb_spec].
Qed.

Lemma X13_update_touches_one_note_witness :
  sget Scenario.id2
    (snd (app Scenario.id3
            (PUT_note Scenario.id1_raw Scenario.body_title_only)
            Scenario.st_AB_CD))
  = Some Scenario.note_CD.
Proof.
  apply (X13_update_touches_one_note Scenario.st_AB_CD Scenario.id3
           Scenario.id3 Scenario.id1_raw Scenario.id1 Scenario.note_AB
           Scenario.body_title_only
           (NoteUpdate.mk (Some (of_string "New")) None [f_title])
           eq_refl eq_refl eq_refl).
  discriminate.
Defined.

(** X14.  Only [POST /notes] adds a key: after any other request, an id
    that was not in the store is still not in it. *)
Theorem X14_only_post_adds
    (st : store) (u : UUID) (req : request) (k : UUID) :
  is_post req = false ->
  sget k st = None ->
  sget k (snd (app u req st)) = None.
Proof.
  intros Hreq Hk.
  destruct (app_store_cases u req st)
    as [->|[(body & p & -> & _)
           |[(raw & note_id & body & p & existing & _ & _ & _ & Hg & ->)
            |(raw & note_id & n & _ & _ & Hg & ->)]]].
  - exact Hk.
  - discriminate.
  - rewrite (get_set_other _ _ _ uuid_eqb_spec); [exact Hk|]. congruence.
  - rewrite (get_del_other _ _ _ uuid_eqb_spec); [exact Hk|]. congruence.
Qed.

Lemma X14_only_post_adds_witness :
  sget Scenario.id2
    (snd (app Scenario.id3
            (PUT_note Scenario.id2_raw Scenario.body_title_only)
            Scenario.st_AB))
  = None.
Proof.
  apply (X14_only_post_adds Scenario.st_AB Scenario.id3
           (PUT_note Scenario.id2_raw Scenario.body_title_only) Scenario.id2);
    reflexivity.
Defined.

(** X15.  Only [DELETE] removes a key: after any other request, an id that
    was in the store is still in it, with a note of the same id. *)
Theorem X15_only_delete_removes
    (st : store) (u : UUID) (req : request) (k : UUID) (n : Note.t) :
  is_delete req = false ->
  sget k st = Some n ->
  exists n', sget k (snd (app u req st)) = Some n'
             /\ (Note.id n = k -> Note.id n' = k).
Proof.
  intros Hreq Hk.
  destruct (app_store_cases u req st)
    as [->|[(body & p & _ & _ & ->)
           |[(raw & note_id & body & p & existing & _ & _ & _ & Hg & ->)
            |(raw & note_id & m & -> & _)]]].
  - eauto.
  - destruct (uuid_eqb_spec k u) as [->|Hne].
    + eexists. split; [apply get_set_same, uuid_eqb_spec | reflexivity].
    + exists n. split; [|trivial].
      now rewrite (get_set_other _ _ _ uuid_eqb_spec).
  - destruct (uuid_eqb_spec k note_id) as [->|Hne].
    + eexists. split; [apply get_set_same, uuid_eqb_spec|].
      rewrite model_copy_id. congruence.
    + exists n. split; [|trivial].
      now rewrite (get_set_other _ _ _ uuid_eqb_spec).
  - discriminate.
Qed.

Lemma X15_only_delete_removes_witness :
  exists n', sget Scenario.id1
               (snd (app Scenario.id1 (POST_notes Scenario.body_CD)
                       Scenario.st_AB)) = Some n'.
Proof.
  destruct (X15_only_delete_removes Scenario.st_AB Scenario.id1
              (POST_notes Scenario.body_CD) Scenario.id1 Scenario.note_AB
              eq_refl eq_refl) as (n' & H & _).
  exists n'. exact H.
Defined.

End RunTheorems.
